(** * The embedding composer of the BERT notebook

    A shallow embedding of the [Embedding] module defined in
    [bert-initial-paper/Interactive Implementation.ipynb]:

    - [Embedding.__init__] builds two lookup tables ([pos_embed] with [maxlen]
      rows, [seg_embed] with two rows), a layer normalisation, and keeps a
      tokenizer and a pretrained encoder;
    - [Embedding.forward] tokenizes a batch of raw texts, derives position and
      segment ids, asks the encoder for the token vectors, adds the three
      embeddings and normalises the sum.

    Tensors are modelled by their shape together with an accessor; Python
    exceptions by a result type; the instance [self] by a record threaded
    through a state-and-exception monad.  The tokenizer and the encoder come
    from a third-party library: they are fields of the instance and every
    statement below is parametric in them. *)

From Stdlib Require Import List ZArith Lia Bool String Ascii PeanoNat Permutation.
Import ListNotations.

Set Implicit Arguments.

(** ** Exceptions and results *)

Inductive exn : Type :=
| IndexError
| RuntimeError
| ValueError.

Inductive result (A : Type) : Type :=
| Ok (a : A)
| Err (e : exn).

Arguments Ok {A} a.
Arguments Err {A} e.

Definition is_ok {A} (r : result A) : bool :=
  match r with Ok _ => true | Err _ => false end.

(** ** Tensors

    A tensor is its shape and an accessor that is only ever read inside the
    shape.  [tensor1], [tensor2] and [tensor3] are the ranks the module uses. *)

Record tensor1 (A : Type) : Type := Tensor1 {
  len1 : nat;
  item1 : nat -> A
}.

Record tensor2 (A : Type) : Type := Tensor2 {
  size0 : nat;
  size1 : nat;
  item2 : nat -> nat -> A
}.

Record tensor3 (A : Type) : Type := Tensor3 {
  dim0 : nat;
  dim1 : nat;
  dim2 : nat;
  item3 : nat -> nat -> nat -> A
}.

Definition shape2 {A} (t : tensor2 A) : nat * nat := (size0 t, size1 t).
Definition shape3 {A} (t : tensor3 A) : nat * nat * nat := (dim0 t, dim1 t, dim2 t).

(** Views of a tensor as nested lists (what [tolist()] prints). *)
Definition row2 {A} (t : tensor2 A) (b : nat) : list A :=
  map (item2 t b) (seq 0 (size1 t)).

Definition tolist2 {A} (t : tensor2 A) : list (list A) :=
  map (row2 t) (seq 0 (size0 t)).

Definition vec3 {A} (t : tensor3 A) (b i : nat) : list A :=
  map (item3 t b i) (seq 0 (dim2 t)).

Definition tolist3 {A} (t : tensor3 A) : list (list (list A)) :=
  map (fun b => map (vec3 t b) (seq 0 (dim1 t))) (seq 0 (dim0 t)).

(** [torch.arange(n, dtype=torch.long)] *)
Definition arange (n : nat) : tensor1 Z :=
  Tensor1 n Z.of_nat.

(** [t.unsqueeze(0)] on a rank-1 tensor: shape [[1, n]]. *)
Definition unsqueeze0 {A} (t : tensor1 A) : tensor2 A :=
  Tensor2 1 (len1 t) (fun _ j => item1 t j).

(** One dimension of a broadcast: a dimension of size 1 stretches to the
    other size, equal sizes stay, anything else is a size mismatch. *)
Definition expandable (from to : nat) : bool :=
  (from =? to) || (from =? 1).

Definition bidx (d i : nat) : nat := if d =? 1 then 0 else i.

(** [t.expand_as(other)] for two rank-2 tensors. *)
Definition expand_as {A B} (t : tensor2 A) (other : tensor2 B) : result (tensor2 A) :=
  if expandable (size0 t) (size0 other) && expandable (size1 t) (size1 other)
  then Ok (Tensor2 (size0 other) (size1 other)
             (fun i j => item2 t (bidx (size0 t) i) (bidx (size1 t) j)))
  else Err RuntimeError.

(** [torch.zeros_like(t)] *)
Definition zeros_like {A} (t : tensor2 A) : tensor2 Z :=
  Tensor2 (size0 t) (size1 t) (fun _ _ => 0%Z).

(** ** Scalars

    The element type of the float tensors and the arithmetic the module
    performs on it.  Nothing below depends on how rounding is done. *)

Class Scalar (F : Type) : Type := {
  fadd : F -> F -> F;
  fsub : F -> F -> F;
  fmul : F -> F -> F;
  fdiv : F -> F -> F;
  fsqrt : F -> F;
  fzero : F;
  fone : F;
  of_nat : nat -> F;
  default_eps : F          (* 1e-5, the default [eps] of [nn.LayerNorm] *)
}.

Section Layers.

Context {F : Type} `{Scalar F}.

(** Broadcasting [a + b] of two rank-3 tensors. *)
Definition bdim (a b : nat) : option nat :=
  if a =? b then Some a
  else if a =? 1 then Some b
  else if b =? 1 then Some a
  else None.

Definition tensor_add (a b : tensor3 F) : result (tensor3 F) :=
  match bdim (dim0 a) (dim0 b), bdim (dim1 a) (dim1 b), bdim (dim2 a) (dim2 b) with
  | Some d0, Some d1, Some d2 =>
      Ok (Tensor3 d0 d1 d2
            (fun i j k =>
               fadd (item3 a (bidx (dim0 a) i) (bidx (dim1 a) j) (bidx (dim2 a) k))
                    (item3 b (bidx (dim0 b) i) (bidx (dim1 b) j) (bidx (dim2 b) k))))
  | _, _, _ => Err RuntimeError
  end.

(** *** [nn.Embedding] *)

Record nn_Embedding : Type := Build_nn_Embedding {
  num_embeddings : nat;
  embedding_dim : nat;
  weight : nat -> nat -> F
}.

Definition index_ok (m : nn_Embedding) (z : Z) : bool :=
  (0 <=? z)%Z && (z <? Z.of_nat (num_embeddings m))%Z.

Definition indices_ok (m : nn_Embedding) (idx : tensor2 Z) : bool :=
  forallb (fun i => forallb (fun j => index_ok m (item2 idx i j)) (seq 0 (size1 idx)))
          (seq 0 (size0 idx)).

(** [m(idx)]: one table row per index, [IndexError] as soon as one index is
    outside the table. *)
Definition Embedding_lookup (m : nn_Embedding) (idx : tensor2 Z) : result (tensor3 F) :=
  if indices_ok m idx
  then Ok (Tensor3 (size0 idx) (size1 idx) (embedding_dim m)
             (fun i j k => weight m (Z.to_nat (item2 idx i j)) k))
  else Err IndexError.

(** *** [nn.LayerNorm] over the last dimension *)

Record nn_LayerNorm : Type := Build_nn_LayerNorm {
  normalized_shape : nat;
  ln_weight : nat -> F;
  ln_bias : nat -> F;
  ln_eps : F
}.

Definition fsum (l : list F) : F := fold_left fadd l fzero.

Definition mean (v : list F) : F := fdiv (fsum v) (of_nat (List.length v)).

Definition variance (v : list F) : F :=
  let mu := mean v in
  mean (map (fun x => fmul (fsub x mu) (fsub x mu)) v).

(** The transform of one vector: [(x - E[x]) / sqrt(Var[x] + eps) * w + b]. *)
Definition normalize (n : nn_LayerNorm) (v : list F) (k : nat) : F :=
  let x := nth k v fzero in
  fadd (fmul (fdiv (fsub x (mean v)) (fsqrt (fadd (variance v) (ln_eps n))))
             (ln_weight n k))
       (ln_bias n k).

Definition LayerNorm_apply (n : nn_LayerNorm) (t : tensor3 F) : result (tensor3 F) :=
  if dim2 t =? normalized_shape n
  then Ok (Tensor3 (dim0 t) (dim1 t) (dim2 t)
             (fun i j k => normalize n (vec3 t i j) k))
  else Err RuntimeError.

End Layers.

Arguments nn_Embedding F : clear implicits.
Arguments nn_LayerNorm F : clear implicits.

(** ** The module instance and its monad *)

(** The two collaborators, as the module calls them.

    [Tokenizer]: the call
    [tok(x, return_tensors='pt', padding='max_length', truncation=True,
         max_length=n)['input_ids']], a rank-2 tensor of token identifiers.

    [Encoder]: the call [model(tokens)[0]], a rank-3 tensor of hidden
    vectors.  Either call may raise. *)
Definition Tokenizer : Type := list string -> nat -> result (tensor2 Z).
Definition Encoder (F : Type) : Type := tensor2 Z -> result (tensor3 F).

(** The attributes [__init__] assigns on [self]. *)
Record Embedding (F : Type) : Type := Build_Embedding {
  tokenizer : Tokenizer;
  bert_model : Encoder F;
  d_model : nat;
  pos_embed : nn_Embedding F;
  seg_embed : nn_Embedding F;
  norm : nn_LayerNorm F
}.

Module PyM.

(** A method body: it reads and may write the instance, and either returns
    a value or raises. *)
Definition M (S A : Type) : Type := S -> result A * S.

Definition ret {S A} (a : A) : M S A := fun s => (Ok a, s).

Definition bind {S A B} (m : M S A) (k : A -> M S B) : M S B :=
  fun s =>
    match m s with
    | (Ok a, s') => k a s'
    | (Err e, s') => (Err e, s')
    end.

(** [self.attr] *)
Definition getattr {S A} (attr : S -> A) : M S A := fun s => (Ok (attr s), s).

(** A call that does not touch the instance. *)
Definition call {S A} (r : result A) : M S A := fun s => (r, s).

End PyM.

Import PyM.

Declare Scope py_scope.
Delimit Scope py_scope with py.
Notation "x <- m ;; k" := (bind m (fun x => k))
  (at level 61, m at next level, right associativity) : py_scope.
Notation "'let*' x := v 'in' k" := (bind (ret v) (fun x => k))
  (at level 61, x name, v at next level, right associativity) : py_scope.

Section EmbeddingModule.

Context {F : Type} `{Scalar F}.

(** *** [Embedding.__init__]

    [BertTokenizer.from_pretrained] and [BertModel.from_pretrained] load the
    collaborators; [nn.Embedding] draws its weights at random, the draw is the
    argument [pos_w] (resp. [seg_w]); [nn.LayerNorm] starts as the identity
    affine map. *)
Variable BertTokenizer_from_pretrained : string -> Tokenizer.
Variable BertModel_from_pretrained : string -> Encoder F.

Definition nn_Embedding_init (num dim : nat) (w : nat -> nat -> F) : nn_Embedding F :=
  Build_nn_Embedding num dim w.

Definition nn_LayerNorm_init (d : nat) : nn_LayerNorm F :=
  Build_nn_LayerNorm d (fun _ => fone) (fun _ => fzero) default_eps.

Definition Embedding_init (vocab_size maxlen d_model : nat)
                          (pos_w seg_w : nat -> nat -> F) : Embedding F :=
  {| tokenizer := BertTokenizer_from_pretrained "bert-base-uncased";
     bert_model := BertModel_from_pretrained "bert-base-uncased";
     d_model := d_model;
     pos_embed := nn_Embedding_init maxlen d_model pos_w;
     seg_embed := nn_Embedding_init 2 d_model seg_w;
     norm := nn_LayerNorm_init d_model |}.

(** *** [Embedding.forward], statement by statement *)

Local Open Scope py_scope.

(** [tokens = self.tokenizer(x, ..., max_length=self.d_model)['input_ids']] *)
Definition forward_tokens (x : list string) : M (Embedding F) (tensor2 Z) :=
  tok <- getattr (@tokenizer F) ;;
  max_length <- getattr (@d_model F) ;;
  call (tok x max_length).

(** [seq_len = tokens.size(1)];
    [pos = torch.arange(seq_len, ...)];
    [pos = pos.unsqueeze(0).expand_as(tokens)] *)
Definition forward_pos (tokens : tensor2 Z) : result (tensor2 Z) :=
  let seq_len := size1 tokens in
  let pos := arange seq_len in
  expand_as (unsqueeze0 pos) tokens.

(** [segments = torch.zeros_like(tokens)] *)
Definition forward_segments (tokens : tensor2 Z) : tensor2 Z :=
  zeros_like tokens.

(** [token_embeddings = self.bert_model(tokens)[0]] *)
Definition forward_token_embeddings (tokens : tensor2 Z) : M (Embedding F) (tensor3 F) :=
  model <- getattr (@bert_model F) ;;
  call (model tokens).

(** [self.pos_embed(pos)] and [self.seg_embed(segments)] *)
Definition forward_pos_embed (pos : tensor2 Z) : M (Embedding F) (tensor3 F) :=
  table <- getattr (@pos_embed F) ;;
  call (Embedding_lookup table pos).

Definition forward_seg_embed (segments : tensor2 Z) : M (Embedding F) (tensor3 F) :=
  table <- getattr (@seg_embed F) ;;
  call (Embedding_lookup table segments).

(** [embedding = token_embeddings + self.pos_embed(pos) + self.seg_embed(segments)]:
    Python evaluates [(a + b) + c] left to right, so the segment table is only
    read once the first sum exists. *)
Definition forward_sum (token_embeddings : tensor3 F) (pos segments : tensor2 Z)
  : M (Embedding F) (tensor3 F) :=
  pe <- forward_pos_embed pos ;;
  s1 <- call (tensor_add token_embeddings pe) ;;
  se <- forward_seg_embed segments ;;
  call (tensor_add s1 se).

(** [return self.norm(embedding)] *)
Definition forward_norm (embedding : tensor3 F) : M (Embedding F) (tensor3 F) :=
  layer <- getattr (@norm F) ;;
  call (LayerNorm_apply layer embedding).

Definition forward (x : list string) : M (Embedding F) (tensor3 F) :=
  tokens <- forward_tokens x ;;
  pos <- call (forward_pos tokens) ;;
  let* segments := forward_segments tokens in
  token_embeddings <- forward_token_embeddings tokens ;;
  embedding <- forward_sum token_embeddings pos segments ;;
  forward_norm embedding.

End EmbeddingModule.

(** ** What the module expects from its collaborators *)

(** The tokenizer keeps to the length [n]: called with [max_length=n],
    [padding='max_length'] and [truncation=True] it returns one row per input
    text, each of exactly [n] identifiers.  This is a statement about one
    value of [max_length]: a tokenizer that always adds its two special
    tokens cannot keep to a length that has no room for them, and nothing is
    assumed of it there. *)
Definition tokenizer_contract (tok : Tokenizer) (n : nat) : Prop :=
  forall x t, tok x n = Ok t -> size0 t = List.length x /\ size1 t = n.

(** The encoder returns one vector of width [hidden] per token position. *)
Definition encoder_contract {F} (hidden : nat) (enc : Encoder F) : Prop :=
  forall tokens te, enc tokens = Ok te ->
    shape3 te = (size0 tokens, size1 tokens, hidden).

(** The shape relations [__init__] establishes between the attributes; they
    survive any update of the weights. *)
Record Embedding_wf {F} (e : Embedding F) : Prop := {
  wf_pos_dim : embedding_dim (pos_embed e) = d_model e;
  wf_seg_num : num_embeddings (seg_embed e) = 2;
  wf_seg_dim : embedding_dim (seg_embed e) = d_model e;
  wf_norm : normalized_shape (norm e) = d_model e
}.

(** [maxlen], as remembered by the instance: the row count of [pos_embed]. *)
Definition maxlen_of {F} (e : Embedding F) : nat := num_embeddings (pos_embed e).

(** ** Vectors *)

Section Vectors.

Context {F : Type} `{Scalar F}.

Definition vadd (u v : list F) : list F :=
  map (fun p => fadd (fst p) (snd p)) (combine u v).

Definition table_row (m : nn_Embedding F) (r : nat) : list F :=
  map (weight m r) (seq 0 (embedding_dim m)).

Definition layer_norm_vec (n : nn_LayerNorm F) (v : list F) : list F :=
  map (normalize n v) (seq 0 (List.length v)).

End Vectors.

(** ** Stand-ins for the collaborators

    A whitespace tokenizer over a small vocabulary and an encoder of a chosen
    width, over integer scalars.  They fulfil the contracts above and let the
    module be run. *)
Module Stub.

#[global] Instance Z_scalar : Scalar Z := {|
  fadd := Z.add; fsub := Z.sub; fmul := Z.mul; fdiv := Z.div;
  fsqrt := Z.sqrt; fzero := 0%Z; fone := 1%Z; of_nat := Z.of_nat;
  default_eps := 1%Z |}.

Definition is_space (c : ascii) : bool := Ascii.eqb c " "%char.

Fixpoint words_from (s : string) (cur : string) : list string :=
  match s with
  | EmptyString => if String.eqb cur EmptyString then [] else [cur]
  | String c s' =>
      if is_space c
      then (if String.eqb cur EmptyString then words_from s' EmptyString
            else cur :: words_from s' EmptyString)
      else words_from s' (cur ++ String c EmptyString)
  end.

Definition words (s : string) : list string := words_from s EmptyString.

Definition vocab : list (string * Z) :=
  [("the", 1996); ("cat", 4937); ("sat", 2938); ("on", 2006); ("mat", 13523);
   ("a", 1037); ("dog", 3899)]%Z%string.

Definition CLS : Z := 101.
Definition SEP : Z := 102.
Definition UNK : Z := 100.
Definition PAD : Z := 0.

Fixpoint word_id (v : list (string * Z)) (w : string) : Z :=
  match v with
  | [] => UNK
  | (w', i) :: v' => if String.eqb w w' then i else word_id v' w
  end.

Definition encode_text (n : nat) (text : string) : list Z :=
  let ids := map (word_id vocab) (words text) in
  let row := firstn n (CLS :: firstn (n - 2) ids ++ [SEP]) in
  row ++ repeat PAD (n - List.length row).

Definition tokenizer : Tokenizer :=
  fun x n =>
    match x with
    | [] => Err ValueError
    | _ => Ok (Tensor2 (List.length x) n
                 (fun i j => nth j (encode_text n (nth i x EmptyString)) PAD))
    end.

Definition encoder (hidden : nat) : Encoder Z :=
  fun tokens =>
    Ok (Tensor3 (size0 tokens) (size1 tokens) hidden
          (fun i j k => (item2 tokens i j + Z.of_nat k)%Z)).

Definition from_pretrained_tokenizer (name : string) : Tokenizer := tokenizer.
Definition from_pretrained_model (hidden : nat) (name : string) : Encoder Z :=
  encoder hidden.

Definition pos_w (r k : nat) : Z := (10 * Z.of_nat r + Z.of_nat k)%Z.
Definition seg_w (r k : nat) : Z := (1000 * (Z.of_nat r + 1) + Z.of_nat k)%Z.

(** [Embedding(vocab_size, maxlen, d_model)] with an encoder of width
    [hidden]. *)
Definition make (hidden vocab_size maxlen d_model : nat) : Embedding Z :=
  Embedding_init from_pretrained_tokenizer (from_pretrained_model hidden)
                 vocab_size maxlen d_model pos_w seg_w.

End Stub.

(** ** Running a method, and the locals of a call *)

(** The value a computation returns from a given state. *)
Definition run {S A} (m : M S A) (s : S) : result A := fst (m s).

(** A computation that hands the state back as it received it. *)
Definition read_only {S A} (m : M S A) : Prop :=
  forall s, snd (m s) = s.

Section Locals.

Context {F : Type} `{Scalar F}.

(** The local variables of a call that returns. *)
Record locals : Type := Build_locals {
  l_tokens : tensor2 Z;
  l_pos : tensor2 Z;
  l_token_embeddings : tensor3 F;
  l_pos_e : tensor3 F;
  l_sum1 : tensor3 F;
  l_seg_e : tensor3 F;
  l_embedding : tensor3 F
}.

Definition returns_with (e : Embedding F) (x : list string) (l : locals)
                        (out : tensor3 F) : Prop :=
  tokenizer e x (d_model e) = Ok (l_tokens l) /\
  forward_pos (l_tokens l) = Ok (l_pos l) /\
  bert_model e (l_tokens l) = Ok (l_token_embeddings l) /\
  Embedding_lookup (pos_embed e) (l_pos l) = Ok (l_pos_e l) /\
  tensor_add (l_token_embeddings l) (l_pos_e l) = Ok (l_sum1 l) /\
  Embedding_lookup (seg_embed e) (forward_segments (l_tokens l)) = Ok (l_seg_e l) /\
  tensor_add (l_sum1 l) (l_seg_e l) = Ok (l_embedding l) /\
  LayerNorm_apply (norm e) (l_embedding l) = Ok out.

End Locals.

(** ** Example instances and batches *)

(** [Embedding(vocab_size=30522, maxlen=5, d_model=4)] over an encoder of
    width 4, and the batch [["the cat sat"]]. *)
Definition bert_vocab_size : nat := Z.to_nat 30522.
Definition cat_model : Embedding Z := Stub.make 4 bert_vocab_size 5 4.
Definition cat_batch : list string := ["the cat sat"%string].
Definition cat_tokens : tensor2 Z :=
  Tensor2 1 4 (fun i j => nth j (Stub.encode_text 4 (nth i cat_batch EmptyString)) Stub.PAD).
Definition cat_token_embeddings : tensor3 Z :=
  Tensor3 1 4 4 (fun i j k => (item2 cat_tokens i j + Z.of_nat k)%Z).

(** [Embedding(vocab_size=30522, maxlen, d_model=4)] with a position table
    shorter than the hidden width. *)
Definition short_table_model (maxlen : nat) : Embedding Z :=
  Stub.make 4 bert_vocab_size maxlen 4.

Definition mat_batch : list string := ["the cat sat on the mat"; "a dog"]%string.

(** ** The corpus cells of the notebook

    [read_corpus], [distinct_words], the cell that loads the corpus and the
    cell that encodes every sentence.  The NLTK corpus reader, [str.lower]
    and the iteration order of a Python set are not part of the notebook:
    they are parameters. *)

Definition START_TOKEN : string := "<START>".
Definition END_TOKEN : string := "<END>".

(** Sequencing of two steps, the first of which may raise. *)
Definition rbind {A B} (r : result A) (k : A -> result B) : result B :=
  match r with
  | Ok a => k a
  | Err e => Err e
  end.

(** [[f(a) for a in l]] when [f] may raise: the first exception ends the
    comprehension. *)
Fixpoint comprehension {A B} (f : A -> result B) (l : list A) : result (list B) :=
  match l with
  | [] => Ok []
  | a :: l' =>
      rbind (f a) (fun b =>
      rbind (comprehension f l') (fun bs => Ok (b :: bs)))
  end.

(** [max(iterable)] raises [ValueError] on an empty iterable. *)
Definition py_max (l : list nat) : result nat :=
  match l with
  | [] => Err ValueError
  | a :: l' => Ok (fold_left Nat.max l' a)
  end.

(** ASCII capitals, the cased characters of the two markers. *)
Definition is_upper (c : ascii) : bool :=
  (65 <=? nat_of_ascii c) && (nat_of_ascii c <=? 90).

Definition has_upper (s : string) : bool :=
  existsb is_upper (list_ascii_of_string s).

Section Corpus.

(** [reuters.fileids(category)] and [reuters.words(f)] *)
Variable reuters_fileids : string -> result (list string).
Variable reuters_words : string -> result (list string).
(** [w.lower()] *)
Variable lower : string -> string.
(** [list(s)] for the set [s] built by adding the given words one by one. *)
Variable set_iteration : list string -> list string.

(** One document: [[START_TOKEN] + [w.lower() for w in words] + [END_TOKEN]] *)
Definition document (ws : list string) : list string :=
  [START_TOKEN] ++ map lower ws ++ [END_TOKEN].

Definition read_corpus (category : string) : result (list (list string)) :=
  rbind (reuters_fileids category) (fun files =>
  comprehension (fun f => rbind (reuters_words f) (fun ws => Ok (document ws))) files).

(** [distinct_words(corpus)]; the two first assignments are overwritten. *)
Definition distinct_words (corpus : list (list string)) : list string * Z :=
  let corpus_words : list string := [] in
  let n_corpus_words : Z := (-1)%Z in
  let corpus_words := set_iteration (List.concat corpus) in
  let n_corpus_words := Z.of_nat (List.length corpus_words) in
  (corpus_words, n_corpus_words).

(** The globals the loading cell defines. *)
Record corpus_globals : Type := Build_corpus_globals {
  reuters_corpus : list (list string);
  corpus_words : list string;
  n_corpus_words : Z;
  max_sent_length : nat
}.

(** [reuters_corpus = read_corpus()];
    [corpus_words, n_corpus_words = distinct_words(reuters_corpus)];
    [max_sent_length = max(len(sentence) for sentence in reuters_corpus)] *)
Definition load_corpus : result corpus_globals :=
  rbind (read_corpus "gold") (fun rc =>
  let (cw, n) := distinct_words rc in
  rbind (py_max (map (@List.length string) rc)) (fun m =>
  Ok (Build_corpus_globals rc cw n m))).

End Corpus.

(** What is known of the parameters: a set lists each of its elements once,
    and a lowercased word has no capital left. *)
Definition set_iteration_contract (set_iteration : list string -> list string) : Prop :=
  forall l, NoDup (set_iteration l) /\ forall y, In y (set_iteration l) <-> In y l.

Definition lower_contract (lower : string -> string) : Prop :=
  forall w, has_upper (lower w) = false.

(** *** The encoding cell *)

(** The globals the encoding cell assigns: the list it fills and the loop
    variable (its [input_ids]). *)
Record encoding_globals : Type := Build_encoding_globals {
  encoded_sentences : list (tensor2 Z);
  encoded_sentence : option (tensor2 Z)
}.

(** An assignment to the state. *)
Definition update {S} (f : S -> S) : M S unit := fun s => (Ok tt, f s).

(** [for a in l: body(a)] *)
Fixpoint for_each {S A} (l : list A) (body : A -> M S unit) : M S unit :=
  match l with
  | [] => ret tt
  | a :: l' => bind (body a) (fun _ => for_each l' body)
  end.

(** [encoded_sentences = []]; then for every sentence
    [encoded_sentence = tokenizer(sentence, ..., max_length=max_sent_length)]
    and [encoded_sentences.append(encoded_sentence['input_ids'])]. *)
Definition encode_sentences (tok : Tokenizer) (corpus : list (list string))
                            (max_length : nat) : M encoding_globals unit :=
  bind (update (fun g => Build_encoding_globals [] (encoded_sentence g))) (fun _ =>
  for_each corpus (fun sentence =>
    bind (call (tok sentence max_length)) (fun enc =>
    bind (update (fun g => Build_encoding_globals (encoded_sentences g) (Some enc))) (fun _ =>
    update (fun g => Build_encoding_globals (encoded_sentences g ++ [enc])
                                            (encoded_sentence g)))))).

(** *** Comparing outcomes of [forward] entry by entry *)

Definition tensor3_agree {F} (a b : tensor3 F) : Prop :=
  shape3 a = shape3 b /\
  forall i j, i < dim0 a -> j < dim1 a -> vec3 a i j = vec3 b i j.

Definition outcome_agree {F} (r1 r2 : result (tensor3 F)) : Prop :=
  match r1, r2 with
  | Ok a, Ok b => tensor3_agree a b
  | Err e1, Err e2 => e1 = e2
  | _, _ => False
  end.

(** The instance [e] after its two tables have been given the weights [w]
    (positions) and [v] (segments), as an optimiser step would do. *)
Definition with_tables {F} (e : Embedding F) (w v : nat -> nat -> F) : Embedding F :=
  Build_Embedding (tokenizer e) (bert_model e) (d_model e)
    (Build_nn_Embedding (num_embeddings (pos_embed e)) (embedding_dim (pos_embed e)) w)
    (Build_nn_Embedding (num_embeddings (seg_embed e)) (embedding_dim (seg_embed e)) v)
    (norm e).

(** *** Instances with the same weights

    Two tables hold the same weights when they have the same size and the
    same entry in every row and column they have; likewise for the parameters
    of the normalisation.  Two instances have the same weights when they share
    the tokenizer, the encoder and [d_model], and their tables and
    normalisation hold the same weights. *)
Definition table_agree {F} (m1 m2 : nn_Embedding F) : Prop :=
  num_embeddings m1 = num_embeddings m2 /\
  embedding_dim m1 = embedding_dim m2 /\
  forall r k, r < num_embeddings m1 -> k < embedding_dim m1 ->
    weight m1 r k = weight m2 r k.

Definition norm_agree {F} (n1 n2 : nn_LayerNorm F) : Prop :=
  normalized_shape n1 = normalized_shape n2 /\
  ln_eps n1 = ln_eps n2 /\
  forall k, k < normalized_shape n1 ->
    ln_weight n1 k = ln_weight n2 k /\ ln_bias n1 k = ln_bias n2 k.

Definition same_weights {F} (e1 e2 : Embedding F) : Prop :=
  tokenizer e1 = tokenizer e2 /\
  bert_model e1 = bert_model e2 /\
  d_model e1 = d_model e2 /\
  table_agree (pos_embed e1) (pos_embed e2) /\
  table_agree (seg_embed e1) (seg_embed e2) /\
  norm_agree (norm e1) (norm e2).

(** *** A stand-in corpus reader *)
Module Nltk.

Definition fileids (category : string) : result (list string) :=
  if String.eqb category "gold" then Ok ["test/1"; "training/2"]%string
  else if String.eqb category "empty" then Ok []
  else Err ValueError.

Definition words (f : string) : result (list string) :=
  if String.eqb f "test/1" then Ok ["Gold"; "prices"; "ROSE"; "."]%string
  else if String.eqb f "training/2" then Ok ["gold"; "fell"]%string
  else Err ValueError.

Definition lower_char (c : ascii) : ascii :=
  if is_upper c then ascii_of_nat (nat_of_ascii c + 32) else c.

Fixpoint lower (s : string) : string :=
  match s with
  | EmptyString => EmptyString
  | String c s' => String (lower_char c) (lower s')
  end.

Definition set_iteration (l : list string) : list string :=
  nodup string_dec l.

End Nltk.

(** The corpus the stand-in reader gives for the category ["gold"], a corpus
    with an empty sentence, and instances over encoders of other widths. *)
Definition gold_corpus : list (list string) :=
  [[START_TOKEN; "gold"; "prices"; "rose"; "."; END_TOKEN];
   [START_TOKEN; "gold"; "fell"; END_TOKEN]]%string.

Definition gold_globals : corpus_globals :=
  Build_corpus_globals gold_corpus
    ["prices"; "rose"; "."; START_TOKEN; "gold"; "fell"; END_TOKEN]%string 7%Z 6.

Definition broken_corpus : list (list string) :=
  [["a"; "dog"]; []; ["the"; "cat"]]%string.

Definition no_globals : encoding_globals := Build_encoding_globals [] None.

Definition wide_model : Embedding Z := Stub.make 8 bert_vocab_size 5 4.
Definition narrow_model : Embedding Z := Stub.make 1 bert_vocab_size 5 4.
Definition wide_token_embeddings : tensor3 Z :=
  Tensor3 1 4 8 (fun i j k => (item2 cat_tokens i j + Z.of_nat k)%Z).
Definition narrow_token_embeddings : tensor3 Z :=
  Tensor3 1 4 1 (fun i j k => (item2 cat_tokens i j + Z.of_nat k)%Z).

(** The token tensor of [mat_batch], two sequences of four identifiers. *)
Definition mat_tokens : tensor2 Z :=
  Tensor2 2 4 (fun i j => nth j (Stub.encode_text 4 (nth i mat_batch EmptyString)) Stub.PAD).

(** A second instance with the weights of [cat_model]: its tables hold the
    same entries, and differ only outside the rows and columns they have. *)
Definition padded_pos_w (r k : nat) : Z :=
  if (r <? 5) && (k <? 4) then Stub.pos_w r k else 77%Z.
Definition padded_seg_w (r k : nat) : Z :=
  if (r <? 2) && (k <? 4) then Stub.seg_w r k else 99%Z.
Definition cat_model_again : Embedding Z :=
  with_tables cat_model padded_pos_w padded_seg_w.

(** Other weights for the rows that [forward] does not read. *)
Definition other_pos_w (r k : nat) : Z :=
  if r <? 4 then Stub.pos_w r k else 77%Z.
Definition other_seg_w (r k : nat) : Z :=
  if r =? 0 then Stub.seg_w r k else 99%Z.

(** ** Read-only computations *)

Lemma read_only_ret {S A} (a : A) : read_only (@ret S A a).
Proof. intro s. reflexivity. Qed.

Lemma read_only_getattr {S A} (attr : S -> A) : read_only (getattr attr).
Proof. intro s. reflexivity. Qed.

Lemma read_only_call {S A} (r : result A) : read_only (@call S A r).
Proof. intro s. reflexivity. Qed.

Lemma read_only_bind {S A B} (m : M S A) (k : A -> M S B) :
  read_only m -> (forall a, read_only (k a)) -> read_only (bind m k).
Proof.
  intros Hm Hk s. unfold bind.
  specialize (Hm s). destruct (m s) as [[a | e] s']; simpl in Hm; subst s'.
  - apply Hk.
  - reflexivity.
Qed.

Create HintDb read_only.
#[export] Hint Resolve read_only_ret read_only_getattr read_only_call : read_only.

Ltac read_only :=
  repeat (apply read_only_bind; [ | intro ]); auto with read_only.


Lemma read_only_run {S A} (m : M S A) (s : S) :
  read_only m -> m s = (run m s, s).
Proof.
  intros Hm. unfold run. specialize (Hm s). destruct (m s); simpl in *; congruence.
Qed.

(** ** Index arithmetic *)

Lemma bidx_lt (d i : nat) : i < d -> bidx d i = i.
Proof.
  unfold bidx. intros Hi. destruct (Nat.eqb_spec d 1); [lia | reflexivity].
Qed.

Lemma bdim_same (a : nat) : bdim a a = Some a.
Proof. unfold bdim. now rewrite Nat.eqb_refl. Qed.

Lemma expandable_same (a : nat) : expandable a a = true.
Proof. unfold expandable. now rewrite Nat.eqb_refl. Qed.

Lemma expandable_one (a : nat) : expandable 1 a = true.
Proof. unfold expandable. simpl. apply orb_true_r. Qed.

Lemma map_seq_ext {A} (f g : nat -> A) (a n : nat) :
  (forall k, a <= k < a + n -> f k = g k) ->
  map f (seq a n) = map g (seq a n).
Proof.
  intros Hfg. apply map_ext_in. intros k Hk. apply in_seq in Hk. now apply Hfg.
Qed.

Lemma nth_map_seq {A} (f : nat -> A) (n k : nat) (d : A) :
  k < n -> nth k (map f (seq 0 n)) d = f k.
Proof.
  intros Hk.
  rewrite (nth_indep _ d (f 0)) by now rewrite length_map, length_seq.
  now rewrite (map_nth f), seq_nth.
Qed.

(** ** The stages of [forward] *)

Section ForwardStages.

Context {F : Type} `{Scalar F}.

Implicit Types (e : Embedding F) (x : list string) (tokens pos : tensor2 Z).

Lemma vadd_map_seq (f g : nat -> F) (a n : nat) :
  vadd (map f (seq a n)) (map g (seq a n)) = map (fun k => fadd (f k) (g k)) (seq a n).
Proof.
  unfold vadd. revert a. induction n as [| n IH]; intros a; simpl.
  - reflexivity.
  - f_equal. apply IH.
Qed.

(** *** Position ids *)

Lemma forward_pos_spec tokens :
  exists pos,
    forward_pos tokens = Ok pos /\
    shape2 pos = shape2 tokens /\
    forall b i, i < size1 tokens -> item2 pos b i = Z.of_nat i.
Proof.
  unfold forward_pos, expand_as. simpl.
  rewrite expandable_one, expandable_same. simpl.
  eexists. split; [reflexivity |]. split; [reflexivity |].
  intros b i Hi. simpl. now rewrite bidx_lt.
Qed.

Lemma forward_pos_rows tokens pos b :
  forward_pos tokens = Ok pos ->
  row2 pos b = map Z.of_nat (seq 0 (size1 tokens)).
Proof.
  intros Hpos. destruct (forward_pos_spec tokens) as (pos' & E & Hshape & Hitem).
  rewrite E in Hpos. injection Hpos as <-.
  unfold shape2 in Hshape. injection Hshape as _ H1.
  unfold row2. rewrite H1. apply map_seq_ext. intros k Hk. apply Hitem. lia.
Qed.

(** *** Table lookups *)

Lemma indices_ok_true (m : nn_Embedding F) (idx : tensor2 Z) :
  indices_ok m idx = true <->
  forall i j, i < size0 idx -> j < size1 idx ->
    (0 <= item2 idx i j < Z.of_nat (num_embeddings m))%Z.
Proof.
  unfold indices_ok, index_ok. rewrite forallb_forall. split.
  - intros Hall i j Hi Hj.
    assert (Hin : In i (seq 0 (size0 idx))) by (apply in_seq; lia).
    specialize (Hall i Hin). rewrite forallb_forall in Hall.
    assert (Hjn : In j (seq 0 (size1 idx))) by (apply in_seq; lia).
    specialize (Hall j Hjn). apply andb_true_iff in Hall. lia.
  - intros Hall i Hi. apply in_seq in Hi. rewrite forallb_forall.
    intros j Hj. apply in_seq in Hj. apply andb_true_iff.
    specialize (Hall i j). lia.
Qed.

Lemma Embedding_lookup_cases (m : nn_Embedding F) (idx : tensor2 Z) :
  (indices_ok m idx = true /\
   Embedding_lookup m idx =
     Ok (Tensor3 (size0 idx) (size1 idx) (embedding_dim m)
           (fun i j k => weight m (Z.to_nat (item2 idx i j)) k)))
  \/ (indices_ok m idx = false /\ Embedding_lookup m idx = Err IndexError).
Proof.
  unfold Embedding_lookup. destruct (indices_ok m idx); [left | right]; now split.
Qed.

(** The position lookup of [forward] succeeds exactly when the batch is empty
    or the table has a row for every position. *)
Lemma pos_indices_ok_iff (m : nn_Embedding F) tokens pos :
  forward_pos tokens = Ok pos ->
  indices_ok m pos = true <->
  (size0 tokens = 0 \/ size1 tokens <= num_embeddings m).
Proof.
  intros Hpos. destruct (forward_pos_spec tokens) as (pos' & E & Hshape & Hitem).
  rewrite E in Hpos. injection Hpos as <-.
  unfold shape2 in Hshape. injection Hshape as H0 H1.
  rewrite indices_ok_true, H0, H1. split.
  - intros Hall.
    destruct (Nat.eq_dec (size0 tokens) 0) as [| Hb]; [now left | right].
    destruct (le_lt_dec (size1 tokens) (num_embeddings m)) as [| Hlt]; [assumption |].
    specialize (Hall 0 (num_embeddings m) ltac:(lia) Hlt).
    rewrite Hitem in Hall by assumption. lia.
  - intros [Hb | Hle] i j Hi Hj; [lia |].
    rewrite Hitem by assumption. lia.
Qed.

Lemma pos_lookup_raises_iff (m : nn_Embedding F) tokens pos :
  forward_pos tokens = Ok pos ->
  Embedding_lookup m pos = Err IndexError <->
  (0 < size0 tokens /\ num_embeddings m < size1 tokens).
Proof.
  intros Hpos. pose proof (pos_indices_ok_iff m tokens Hpos) as Hiff.
  destruct (Embedding_lookup_cases m pos) as [[Hok E] | [Hbad E]]; rewrite E.
  - split; [discriminate |]. intros [Hb Hlt]. apply Hiff in Hok. lia.
  - split; [| reflexivity]. intros _.
    destruct (Nat.eq_dec (size0 tokens) 0) as [Hz | Hnz].
    + assert (indices_ok m pos = true) by (apply Hiff; now left). congruence.
    + destruct (le_lt_dec (size1 tokens) (num_embeddings m)) as [Hle | Hlt]; [| lia].
      assert (indices_ok m pos = true) by (apply Hiff; now right). congruence.
Qed.

Lemma pos_lookup_value (m : nn_Embedding F) tokens pos pe :
  forward_pos tokens = Ok pos ->
  Embedding_lookup m pos = Ok pe ->
  shape3 pe = (size0 tokens, size1 tokens, embedding_dim m) /\
  forall b i k, i < size1 tokens -> item3 pe b i k = weight m i k.
Proof.
  intros Hpos Hpe. destruct (forward_pos_spec tokens) as (pos' & E & Hshape & Hitem).
  rewrite E in Hpos. injection Hpos as <-.
  unfold shape2 in Hshape. injection Hshape as H0 H1.
  destruct (Embedding_lookup_cases m pos') as [[_ E'] | [_ E']];
    rewrite E' in Hpe; [| discriminate].
  injection Hpe as <-. unfold shape3. simpl. rewrite H0, H1. split; [reflexivity |].
  intros b i k Hi. now rewrite Hitem, Nat2Z.id.
Qed.

(** *** Segment ids *)

Lemma forward_segments_zero tokens b i :
  item2 (forward_segments tokens) b i = 0%Z.
Proof. reflexivity. Qed.

Lemma forward_segments_rows tokens b :
  row2 (forward_segments tokens) b = repeat 0%Z (size1 tokens).
Proof.
  unfold row2, forward_segments, zeros_like. simpl.
  generalize 0 at 1. induction (size1 tokens) as [| n IH]; intros a; simpl.
  - reflexivity.
  - f_equal. apply IH.
Qed.

Lemma seg_lookup_value (m : nn_Embedding F) tokens :
  0 < num_embeddings m ->
  exists se,
    Embedding_lookup m (forward_segments tokens) = Ok se /\
    shape3 se = (size0 tokens, size1 tokens, embedding_dim m) /\
    forall b i k, item3 se b i k = weight m 0 k.
Proof.
  intros Hnum.
  destruct (Embedding_lookup_cases m (forward_segments tokens)) as [[_ E] | [Hbad _]].
  - eexists. split; [exact E |]. split; reflexivity.
  - assert (indices_ok m (forward_segments tokens) = true).
    { apply indices_ok_true. intros i j _ _. rewrite forward_segments_zero. lia. }
    congruence.
Qed.

End ForwardStages.

(** ** Whole calls of [forward] *)

Section ForwardCalls.

Context {F : Type} `{Scalar F}.

Implicit Types (e : Embedding F) (x : list string) (tokens pos : tensor2 Z).

Lemma forward_tokens_run x e :
  forward_tokens x e = (tokenizer e x (d_model e), e).
Proof. reflexivity. Qed.

Lemma forward_read_only x : read_only (forward x).
Proof.
  unfold forward, forward_tokens, forward_token_embeddings, forward_sum,
    forward_pos_embed, forward_seg_embed, forward_norm.
  read_only.
Qed.


Lemma forward_returns_iff x e out e' :
  forward x e = (Ok out, e') <-> e' = e /\ exists l, returns_with e x l out.
Proof.
  unfold returns_with. split.
  - intros Hrun.
    assert (He : e' = e).
    { pose proof (forward_read_only x e) as Hro. rewrite Hrun in Hro. exact Hro. }
    split; [exact He |]. clear He.
    unfold forward, forward_tokens, forward_token_embeddings, forward_sum,
      forward_pos_embed, forward_seg_embed, forward_norm,
      bind, ret, getattr, call in Hrun.
    destruct (tokenizer e x (d_model e)) as [tokens |] eqn:Et; [| discriminate].
    destruct (forward_pos tokens) as [pos |] eqn:Ep; [| discriminate].
    destruct (bert_model e tokens) as [te |] eqn:Ee; [| discriminate].
    destruct (Embedding_lookup (pos_embed e) pos) as [pe |] eqn:El; [| discriminate].
    destruct (tensor_add te pe) as [s1 |] eqn:Ea; [| discriminate].
    destruct (Embedding_lookup (seg_embed e) (forward_segments tokens)) as [se |] eqn:Es;
      [| discriminate].
    destruct (tensor_add s1 se) as [emb |] eqn:Eb; [| discriminate].
    exists (Build_locals tokens pos te pe s1 se emb). simpl.
    repeat (split; [assumption || reflexivity |]). congruence.
  - intros [-> [l (Et & Ep & Ee & El & Ea & Es & Eb & En)]].
    unfold forward, forward_tokens, forward_token_embeddings, forward_sum,
      forward_pos_embed, forward_seg_embed, forward_norm,
      bind, ret, getattr, call.
    now rewrite Et, Ep, Ee, El, Ea, Es, Eb, En.
Qed.

(** The token tensor of a call has the width the tokenizer was asked for,
    which is [self.d_model]. *)
Lemma forward_tokens_shape x e tokens e' :
  tokenizer_contract (tokenizer e) (d_model e) ->
  forward_tokens x e = (Ok tokens, e') ->
  shape2 tokens = (List.length x, d_model e).
Proof.
  intros Hc Hrun. rewrite forward_tokens_run in Hrun.
  injection Hrun as Hrun _. apply Hc in Hrun as [H0 H1].
  unfold shape2. now rewrite H0, H1.
Qed.

(** A call on a non-empty batch raises [IndexError] from the position lookup
    as soon as the table has fewer than [d_model] rows and the collaborators
    have answered. *)
Lemma forward_short_table x e tokens te :
  tokenizer e x (d_model e) = Ok tokens ->
  0 < size0 tokens ->
  maxlen_of e < size1 tokens ->
  bert_model e tokens = Ok te ->
  forward x e = (Err IndexError, e).
Proof.
  intros Et Hb Hlt Ee.
  destruct (forward_pos_spec tokens) as (pos & Ep & _).
  assert (El : Embedding_lookup (pos_embed e) pos = Err IndexError).
  { apply (pos_lookup_raises_iff (pos_embed e) tokens Ep). split; assumption. }
  unfold forward, forward_tokens, forward_token_embeddings, forward_sum,
    forward_pos_embed, forward_seg_embed, forward_norm,
    bind, ret, getattr, call.
  now rewrite Et, Ep, Ee, El.
Qed.

(** With a tokenizer that keeps to the length [d_model], the position lookup
    of a call on a non-empty batch raises exactly when [maxlen < d_model]. *)
Lemma forward_pos_lookup_raises_iff x e tokens pos :
  tokenizer_contract (tokenizer e) (d_model e) ->
  tokenizer e x (d_model e) = Ok tokens ->
  x <> [] ->
  forward_pos tokens = Ok pos ->
  run (forward_pos_embed pos) e = Err IndexError <-> maxlen_of e < d_model e.
Proof.
  intros Hc Et Hx Ep. apply Hc in Et as [H0 H1].
  unfold run, forward_pos_embed, bind, getattr, call. simpl.
  rewrite (pos_lookup_raises_iff (pos_embed e) tokens Ep), H0, H1.
  unfold maxlen_of. destruct x as [| s x]; [congruence |]. simpl. lia.
Qed.

Lemma forward_pos_lookup_safe x e tokens pos :
  tokenizer_contract (tokenizer e) (d_model e) ->
  tokenizer e x (d_model e) = Ok tokens ->
  forward_pos tokens = Ok pos ->
  d_model e <= maxlen_of e ->
  indices_ok (pos_embed e) pos = true.
Proof.
  intros Hc Et Ep Hle. apply Hc in Et as [_ H1].
  apply (pos_indices_ok_iff (pos_embed e) tokens Ep). right.
  unfold maxlen_of in Hle. lia.
Qed.

(** The segment lookup of a call never raises. *)
Lemma forward_seg_lookup_ok e tokens :
  Embedding_wf e ->
  exists se,
    run (forward_seg_embed (forward_segments tokens)) e = Ok se /\
    shape3 se = (size0 tokens, size1 tokens, d_model e) /\
    forall b i, vec3 se b i = table_row (seg_embed e) 0.
Proof.
  intros Hwf.
  destruct (seg_lookup_value (seg_embed e) tokens) as (se & E & Hs & Hv).
  { rewrite (wf_seg_num Hwf). lia. }
  exists se. split; [exact E |]. split.
  - now rewrite Hs, (wf_seg_dim Hwf).
  - intros b i. unfold vec3, table_row.
    injection Hs as _ _ H2. rewrite H2.
    apply map_seq_ext. intros k _. apply Hv.
Qed.

End ForwardCalls.

(** ** Calls that return *)

Section ValidCalls.

Context {F : Type} `{Scalar F}.

Implicit Types (e : Embedding F) (x : list string) (tokens pos : tensor2 Z).

Lemma length_vec3 (t : tensor3 F) b i : List.length (vec3 t b i) = dim2 t.
Proof. unfold vec3. now rewrite length_map, length_seq. Qed.

Lemma LayerNorm_apply_value (n : nn_LayerNorm F) (t out : tensor3 F) :
  LayerNorm_apply n t = Ok out ->
  shape3 out = shape3 t /\
  dim2 t = normalized_shape n /\
  forall b i, vec3 out b i = layer_norm_vec n (vec3 t b i).
Proof.
  unfold LayerNorm_apply. destruct (Nat.eqb_spec (dim2 t) (normalized_shape n)) as [E |];
    [| discriminate].
  intros Hout. injection Hout as <-. split; [reflexivity |]. split; [exact E |].
  intros b i. unfold layer_norm_vec. rewrite length_vec3. reflexivity.
Qed.

Lemma tensor_add_same_shape (a b : tensor3 F) :
  shape3 a = shape3 b ->
  exists s, tensor_add a b = Ok s /\
    shape3 s = shape3 a /\
    forall i j, i < dim0 a -> j < dim1 a ->
      vec3 s i j = vadd (vec3 a i j) (vec3 b i j).
Proof.
  destruct a as [a0 a1 a2 fa], b as [b0 b1 b2 fb]. unfold shape3. simpl.
  intros E. injection E as <- <- <-.
  unfold tensor_add. simpl. rewrite !bdim_same.
  eexists. split; [reflexivity |]. split; [reflexivity |].
  intros i j Hi Hj. unfold vec3. simpl. rewrite vadd_map_seq.
  apply map_seq_ext. intros k Hk.
  now rewrite !bidx_lt by lia.
Qed.

(** A call whose collaborators answer with the agreed shapes, and whose
    positions all have a row in the table, returns; the tensor handed to the
    normalisation is the sum of the three embeddings, position by position. *)
Lemma forward_valid_call e x tokens te :
  Embedding_wf e ->
  tokenizer e x (d_model e) = Ok tokens ->
  (size0 tokens = 0 \/ size1 tokens <= maxlen_of e) ->
  bert_model e tokens = Ok te ->
  shape3 te = (size0 tokens, size1 tokens, d_model e) ->
  exists emb out,
    forward x e = (Ok out, e) /\
    LayerNorm_apply (norm e) emb = Ok out /\
    shape3 emb = (size0 tokens, size1 tokens, d_model e) /\
    forall b i, b < size0 tokens -> i < size1 tokens ->
      vec3 emb b i =
      vadd (vadd (vec3 te b i) (table_row (pos_embed e) i)) (table_row (seg_embed e) 0).
Proof.
  intros Hwf Et Hfit Ee Hte.
  (* positions *)
  destruct (forward_pos_spec tokens) as (pos & Ep & _).
  destruct (Embedding_lookup_cases (pos_embed e) pos) as [[_ El] | [Hbad _]].
  2:{ apply (pos_indices_ok_iff (pos_embed e) tokens Ep) in Hfit. congruence. }
  set (pe := Tensor3 _ _ _ _) in El.
  destruct (pos_lookup_value (pos_embed e) tokens Ep El) as [Hpe Hpev].
  rewrite (wf_pos_dim Hwf) in Hpe.
  (* first sum *)
  destruct (@tensor_add_same_shape te pe) as (s1 & Ea & Hs1 & Hs1v).
  { now rewrite Hte, Hpe. }
  (* segments *)
  destruct (seg_lookup_value (seg_embed e) tokens) as (se & Es & Hse & Hsev).
  { rewrite (wf_seg_num Hwf). lia. }
  rewrite (wf_seg_dim Hwf) in Hse.
  (* second sum *)
  destruct (@tensor_add_same_shape s1 se) as (emb & Eb & Hemb & Hembv).
  { now rewrite Hs1, Hte, Hse. }
  (* normalisation *)
  assert (Hd : dim2 emb = normalized_shape (norm e)).
  { rewrite (wf_norm Hwf). rewrite Hs1, Hte in Hemb. now injection Hemb. }
  destruct (LayerNorm_apply (norm e) emb) as [out |] eqn:En.
  2:{ unfold LayerNorm_apply in En. apply Nat.eqb_eq in Hd. rewrite Hd in En.
      discriminate. }
  exists emb, out. split; [| split; [exact En | split]].
  - apply forward_returns_iff. split; [reflexivity |].
    exists (Build_locals tokens pos te pe s1 se emb). unfold returns_with. simpl.
    repeat (split; [assumption |]). assumption.
  - now rewrite Hemb, Hs1.
  - intros b i Hb Hi.
    assert (Hte0 : dim0 te = size0 tokens) by now injection Hte.
    assert (Hte1 : dim1 te = size1 tokens) by now injection Hte.
    assert (Hte2 : dim2 te = d_model e) by now injection Hte.
    assert (Hs10 : dim0 s1 = size0 tokens) by (rewrite Hte in Hs1; now injection Hs1).
    assert (Hs11 : dim1 s1 = size1 tokens) by (rewrite Hte in Hs1; now injection Hs1).
    rewrite Hembv by lia. rewrite Hs1v by lia.
    f_equal; [f_equal |].
    + assert (Hpe2 : dim2 pe = d_model e) by now injection Hpe.
      unfold vec3, table_row. rewrite Hpe2, (wf_pos_dim Hwf).
      apply map_seq_ext. intros k _. now apply Hpev.
    + assert (Hse2 : dim2 se = d_model e) by now injection Hse.
      unfold vec3, table_row. rewrite Hse2, (wf_seg_dim Hwf).
      apply map_seq_ext. intros k _. apply Hsev.
Qed.

End ValidCalls.

(** ** Shapes of the result *)

Section Shapes.

Context {F : Type} `{Scalar F}.

Implicit Types (e : Embedding F) (x : list string) (tokens pos : tensor2 Z).

Lemma bdim_refl_inv (a d : nat) : bdim a a = Some d -> d = a.
Proof. rewrite bdim_same. congruence. Qed.

Lemma tensor_add_dims (a b s : tensor3 F) :
  tensor_add a b = Ok s ->
  bdim (dim0 a) (dim0 b) = Some (dim0 s) /\
  bdim (dim1 a) (dim1 b) = Some (dim1 s) /\
  bdim (dim2 a) (dim2 b) = Some (dim2 s).
Proof.
  unfold tensor_add.
  destruct (bdim (dim0 a) (dim0 b)), (bdim (dim1 a) (dim1 b)), (bdim (dim2 a) (dim2 b));
    try discriminate.
  intros E. injection E as <-. simpl. repeat split.
Qed.

(** Whenever a call returns, with a tokenizer that keeps to the length
    [d_model], the result has one vector of width [d_model] per token, and the
    number of tokens per text is [d_model] again. *)
Lemma forward_shape (hidden : nat) x e out e' :
  Embedding_wf e ->
  tokenizer_contract (tokenizer e) (d_model e) ->
  encoder_contract hidden (bert_model e) ->
  forward x e = (Ok out, e') ->
  shape3 out = (List.length x, d_model e, d_model e).
Proof.
  intros Hwf Htok Henc Hrun.
  apply forward_returns_iff in Hrun as [_ [l (Et & Ep & Ee & El & Ea & Es & Eb & En)]].
  apply Htok in Et as [Hb Hl]. apply Henc in Ee.
  destruct (pos_lookup_value _ _ Ep El) as [Hpe _].
  destruct (seg_lookup_value (seg_embed e) (l_tokens l)) as (se & Es' & Hse & _).
  { rewrite (wf_seg_num Hwf). lia. }
  rewrite Es in Es'. injection Es' as <-.
  apply tensor_add_dims in Ea as (A0 & A1 & _).
  apply tensor_add_dims in Eb as (B0 & B1 & _).
  apply LayerNorm_apply_value in En as (Hout & Hd & _).
  unfold shape3 in *.
  injection Ee as T0 T1 _. injection Hpe as P0 P1 _. injection Hse as S0 S1 _.
  rewrite T0, P0 in A0. rewrite T1, P1 in A1.
  apply bdim_refl_inv in A0, A1.
  rewrite A0, S0 in B0. rewrite A1, S1 in B1.
  apply bdim_refl_inv in B0, B1.
  rewrite Hout, B0, B1, Hd, (wf_norm Hwf), Hb, Hl. reflexivity.
Qed.

End Shapes.

(** ** Facts about [__init__] and about the stand-ins *)

Lemma Embedding_init_wf {F} `{Scalar F} load_tok load_model vocab_size maxlen d pw sw :
  Embedding_wf (Embedding_init (F:=F) load_tok load_model vocab_size maxlen d pw sw).
Proof. split; reflexivity. Qed.

Lemma Embedding_init_maxlen {F} `{Scalar F} load_tok load_model vocab_size maxlen d pw sw :
  maxlen_of (Embedding_init (F:=F) load_tok load_model vocab_size maxlen d pw sw) = maxlen.
Proof. reflexivity. Qed.

Lemma Stub_tokenizer_contract (n : nat) : tokenizer_contract Stub.tokenizer n.
Proof.
  intros x t. unfold Stub.tokenizer. destruct x as [| s x]; [discriminate |].
  intros E. injection E as <-. split; reflexivity.
Qed.

Lemma Stub_encoder_contract (hidden : nat) : encoder_contract hidden (Stub.encoder hidden).
Proof. intros tokens te E. injection E as <-. reflexivity. Qed.

Lemma Stub_encode_text_length (n : nat) (text : string) :
  List.length (Stub.encode_text n text) = n.
Proof.
  unfold Stub.encode_text. rewrite length_app, repeat_length.
  pose proof (firstn_le_length n
    (Stub.CLS :: firstn (n - 2) (map (Stub.word_id Stub.vocab) (Stub.words text))
       ++ [Stub.SEP])).
  lia.
Qed.

Lemma Stub_make_wf hidden vocab_size maxlen d :
  Embedding_wf (Stub.make hidden vocab_size maxlen d).
Proof. apply Embedding_init_wf. Qed.

(** ** Properties of [Embedding.forward] *)

Section Properties.

Context {F : Type} `{Scalar F}.

Implicit Types (e : Embedding F) (x : list string) (tokens pos : tensor2 Z).

(** C4. When a call returns, the vector at every token position of every
    sequence is the layer normalisation, taken over the [d_model] axis of that
    position alone, of the elementwise sum of the token vector, the row of the
    position table for that position and row 0 of the segment table.  The call
    does return when the collaborators answer with the agreed shapes and the
    position table has a row for every position. *)
Theorem forward_normalized_sum e x tokens te :
  Embedding_wf e ->
  tokenizer e x (d_model e) = Ok tokens ->
  (size0 tokens = 0 \/ size1 tokens <= maxlen_of e) ->
  bert_model e tokens = Ok te ->
  shape3 te = (size0 tokens, size1 tokens, d_model e) ->
  exists out,
    forward x e = (Ok out, e) /\
    shape3 out = (size0 tokens, size1 tokens, d_model e) /\
    forall b i, b < size0 tokens -> i < size1 tokens ->
      vec3 out b i =
      layer_norm_vec (norm e)
        (vadd (vadd (vec3 te b i) (table_row (pos_embed e) i))
              (table_row (seg_embed e) 0)).
Proof.
  intros Hwf Et Hfit Ee Hte.
  destruct (forward_valid_call x Hwf Et Hfit Ee Hte) as (emb & out & Hrun & En & Hs & Hv).
  apply LayerNorm_apply_value in En as (Hout & _ & Hn).
  exists out. split; [exact Hrun |]. split; [congruence |].
  intros b i Hb Hi. rewrite Hn. f_equal. now apply Hv.
Qed.

(** C5. In every call the position ids derived from the token tensor have the
    shape of that tensor and every row is [0, 1, ..., seq_len-1].  The lookup
    of these ids in the position table returns exactly when the batch is empty
    or the table has a row for every position; the tensor it returns has one
    vector per token position of every sequence, and the vector at position
    [i] is row [i] of the table, the same for every sequence of the batch and
    whatever the tokens are.  In a call that returns, this tensor is the
    position term of the sum. *)
Theorem forward_position_ids x e tokens e1 :
  forward_tokens x e = (Ok tokens, e1) ->
  exists pos,
    forward_pos tokens = Ok pos /\
    shape2 pos = shape2 tokens /\
    (forall b, row2 pos b = map Z.of_nat (seq 0 (size1 tokens))) /\
    ((size0 tokens = 0 \/ size1 tokens <= maxlen_of e) <->
     exists pe, run (forward_pos_embed pos) e1 = Ok pe) /\
    (forall pe, run (forward_pos_embed pos) e1 = Ok pe ->
       shape3 pe = (size0 tokens, size1 tokens, embedding_dim (pos_embed e)) /\
       forall b b' i, i < size1 tokens ->
         vec3 pe b i = table_row (pos_embed e) i /\ vec3 pe b' i = vec3 pe b i) /\
    (forall out e', forward x e = (Ok out, e') ->
       exists l,
         returns_with e x l out /\ l_tokens l = tokens /\ l_pos l = pos /\
         shape3 (l_pos_e l) = (size0 tokens, size1 tokens, embedding_dim (pos_embed e)) /\
         forall b i, b < size0 tokens -> i < size1 tokens ->
           vec3 (l_pos_e l) b i = table_row (pos_embed e) i).
Proof.
  intros Hrun. rewrite forward_tokens_run in Hrun. injection Hrun as Et <-.
  destruct (forward_pos_spec tokens) as (pos & Ep & Hshape & _).
  assert (Hrow : forall pe, Embedding_lookup (pos_embed e) pos = Ok pe ->
            shape3 pe = (size0 tokens, size1 tokens, embedding_dim (pos_embed e)) /\
            forall b i, i < size1 tokens -> vec3 pe b i = table_row (pos_embed e) i).
  { intros pe Hpe. destruct (pos_lookup_value _ _ Ep Hpe) as [Hs Hv].
    split; [exact Hs |]. intros b i Hi. unfold vec3, table_row.
    assert (H2 : dim2 pe = embedding_dim (pos_embed e)) by now injection Hs.
    rewrite H2. apply map_seq_ext. intros k _. now apply Hv. }
  exists pos. split; [exact Ep |]. split; [exact Hshape |].
  split; [intros b; now apply forward_pos_rows |].
  split; [| split].
  - unfold run, forward_pos_embed, bind, getattr, call. simpl.
    rewrite <- (pos_indices_ok_iff (pos_embed e) tokens Ep).
    destruct (Embedding_lookup_cases (pos_embed e) pos) as [[Hok El] | [Hbad El]];
      rewrite El, ?Hok, ?Hbad.
    + split; [intros _; eexists; reflexivity | reflexivity].
    + split; [discriminate | intros [pe Hpe]; discriminate].
  - intros pe Hpe. unfold run, forward_pos_embed, bind, getattr, call in Hpe.
    simpl in Hpe. destruct (Hrow pe Hpe) as [Hs Hv]. split; [exact Hs |].
    intros b b' i Hi. split; [now apply Hv |]. now rewrite !Hv.
  - intros out e' Hfw.
    apply forward_returns_iff in Hfw as [_ [l Hl]]. exists l.
    pose proof Hl as (Et' & Ep' & _ & El & _).
    rewrite Et in Et'. injection Et' as Et'. rewrite <- Et' in *.
    rewrite Ep in Ep'. injection Ep' as Ep'. rewrite <- Ep' in *.
    destruct (Hrow _ El) as [Hs Hv].
    repeat (split; [assumption || reflexivity |]).
    intros b i _ Hi. now apply Hv.
Qed.

(** C6. In every call the segment ids are all zero (id 1 never occurs) and
    have the shape of the token tensor; the lookup in the segment table
    returns a tensor with one vector per token position of every sequence,
    and that vector is row 0 of the segment table everywhere.  In a call that
    returns, this tensor is the segment term of the sum. *)
Theorem forward_segment_ids x e tokens e1 :
  Embedding_wf e ->
  forward_tokens x e = (Ok tokens, e1) ->
  shape2 (forward_segments tokens) = shape2 tokens /\
  (forall b i, item2 (forward_segments tokens) b i = 0%Z) /\
  (forall b, row2 (forward_segments tokens) b = repeat 0%Z (size1 tokens)) /\
  exists se,
    run (forward_seg_embed (forward_segments tokens)) e1 = Ok se /\
    shape3 se = (size0 tokens, size1 tokens, d_model e) /\
    (forall b i, vec3 se b i = table_row (seg_embed e) 0) /\
    (forall out e', forward x e = (Ok out, e') ->
       exists l, returns_with e x l out /\ l_tokens l = tokens /\ l_seg_e l = se).
Proof.
  intros Hwf Hrun. rewrite forward_tokens_run in Hrun. injection Hrun as Et <-.
  split; [reflexivity |]. split; [intros; apply forward_segments_zero |].
  split; [intros; apply forward_segments_rows |].
  destruct (forward_seg_lookup_ok tokens Hwf) as (se & E & Hs & Hv).
  exists se. split; [exact E |]. split; [exact Hs |]. split; [exact Hv |].
  intros out e' Hfw.
  apply forward_returns_iff in Hfw as [_ [l Hl]]. exists l.
  pose proof Hl as (Et' & _ & _ & _ & _ & Es & _).
  rewrite Et in Et'. injection Et' as Et'. rewrite <- Et' in *.
  unfold run, forward_seg_embed, bind, getattr, call in E. simpl in E.
  rewrite E in Es. injection Es as Es.
  split; [exact Hl |]. split; [reflexivity | now symmetry].
Qed.

(** C9. A call leaves the instance as it found it: the position table, the
    segment table, the normalisation parameters and every other attribute are
    the same after the call, whether it returns or raises. *)
Theorem forward_no_side_effects x e :
  snd (forward x e) = e /\
  pos_embed (snd (forward x e)) = pos_embed e /\
  seg_embed (snd (forward x e)) = seg_embed e /\
  norm (snd (forward x e)) = norm e /\
  d_model (snd (forward x e)) = d_model e.
Proof. rewrite (forward_read_only x e). repeat split. Qed.

(** C10. The constructor argument [vocab_size] is never used: two instances
    built with different values of it, and otherwise the same arguments and
    weights, are the same instance, and [forward] gives the same outcome on
    every input. *)
Theorem forward_ignores_vocab_size load_tok load_model v1 v2 maxlen d pw sw x :
  Embedding_init load_tok load_model v1 maxlen d pw sw =
  Embedding_init load_tok load_model v2 maxlen d pw sw /\
  run (forward (F:=F) x) (Embedding_init load_tok load_model v1 maxlen d pw sw) =
  run (forward x) (Embedding_init load_tok load_model v2 maxlen d pw sw).
Proof. split; reflexivity. Qed.

End Properties.

(** ** Runs of the module *)

Local Open Scope string_scope.
Local Open Scope Z_scope.

Lemma forward_normalized_sum_witness :
  exists out,
    forward cat_batch cat_model = (Ok out, cat_model) /\
    shape3 out = (1, 4, 4)%nat /\
    forall b i, (b < 1)%nat -> (i < 4)%nat ->
      vec3 out b i =
      layer_norm_vec (norm cat_model)
        (vadd (vadd (vec3 cat_token_embeddings b i) (table_row (pos_embed cat_model) i))
              (table_row (seg_embed cat_model) 0)).
Proof.
  apply forward_normalized_sum with (tokens := cat_tokens).
  - apply Stub_make_wf.
  - reflexivity.
  - right. vm_compute. lia.
  - reflexivity.
  - reflexivity.
Defined.

Lemma forward_position_ids_witness :
  exists pos,
    forward_pos mat_tokens = Ok pos /\
    shape2 pos = shape2 mat_tokens /\
    (forall b, row2 pos b = map Z.of_nat (seq 0 4)) /\
    ((size0 mat_tokens = 0%nat \/ (size1 mat_tokens <= maxlen_of cat_model)%nat) <->
     exists pe, run (forward_pos_embed pos) cat_model = Ok pe) /\
    (forall pe, run (forward_pos_embed pos) cat_model = Ok pe ->
       shape3 pe = (2, 4, 4)%nat /\
       forall b b' i, (i < 4)%nat ->
         vec3 pe b i = table_row (pos_embed cat_model) i /\ vec3 pe b' i = vec3 pe b i) /\
    (forall out e', forward mat_batch cat_model = (Ok out, e') ->
       exists l,
         returns_with cat_model mat_batch l out /\ l_tokens l = mat_tokens /\
         l_pos l = pos /\
         shape3 (l_pos_e l) = (2, 4, 4)%nat /\
         forall b i, (b < 2)%nat -> (i < 4)%nat ->
           vec3 (l_pos_e l) b i = table_row (pos_embed cat_model) i).
Proof.
  apply forward_position_ids with (x := mat_batch) (e := cat_model) (e1 := cat_model)
                                  (tokens := mat_tokens).
  reflexivity.
Defined.

Lemma forward_segment_ids_witness :
  shape2 (forward_segments mat_tokens) = shape2 mat_tokens /\
  (forall b i, item2 (forward_segments mat_tokens) b i = 0) /\
  (forall b, row2 (forward_segments mat_tokens) b = repeat 0 4) /\
  exists se,
    run (forward_seg_embed (forward_segments mat_tokens)) cat_model = Ok se /\
    shape3 se = (2, 4, 4)%nat /\
    (forall b i, vec3 se b i = table_row (seg_embed cat_model) 0) /\
    (forall out e', forward mat_batch cat_model = (Ok out, e') ->
       exists l, returns_with cat_model mat_batch l out /\
                 l_tokens l = mat_tokens /\ l_seg_e l = se).
Proof.
  apply forward_segment_ids with (x := mat_batch) (e := cat_model) (e1 := cat_model).
  - apply Stub_make_wf.
  - reflexivity.
Defined.

(** C1. With [maxlen = 5] and [d_model = 4] the token tensor of a call has
    rows of length 4, not 5: a six-word text is truncated to four identifiers
    and a two-word text is not padded up to five.  The length the tokenizer is
    asked for is [self.d_model]. *)
Theorem forward_tokens_length_is_d_model :
  maxlen_of cat_model = 5%nat /\
  d_model cat_model = 4%nat /\
  exists tokens,
    forward_tokens mat_batch cat_model = (Ok tokens, cat_model) /\
    shape2 tokens = (2, 4)%nat /\
    tolist2 tokens = [[101; 1996; 4937; 102]; [101; 1037; 3899; 102]] /\
    Forall (fun row => List.length row <> maxlen_of cat_model) (tolist2 tokens).
Proof.
  split; [reflexivity |]. split; [reflexivity |].
  eexists. split; [reflexivity |]. split; [reflexivity |].
  split; [vm_compute; reflexivity |].
  vm_compute. repeat constructor; discriminate.
Qed.

(** C2. On the batch [["the cat sat"]] with [maxlen = 5] and [d_model = 4]
    the call returns a tensor of shape [[1, 4, 4]]: the tokenizer yields four
    identifiers, the position ids are [[0, 1, 2, 3]] and the segment ids
    [[0, 0, 0, 0]]. *)
Theorem forward_cat_example_shape :
  exists tokens pos out,
    forward_tokens cat_batch cat_model = (Ok tokens, cat_model) /\
    tolist2 tokens = [[101; 1996; 4937; 102]] /\
    forward_pos tokens = Ok pos /\
    tolist2 pos = [[0; 1; 2; 3]] /\
    tolist2 (forward_segments tokens) = [[0; 0; 0; 0]] /\
    forward cat_batch cat_model = (Ok out, cat_model) /\
    shape3 out = (1, 4, 4)%nat /\
    shape3 out <> (1, 5, 4)%nat.
Proof.
  do 3 eexists.
  split; [reflexivity |]. split; [vm_compute; reflexivity |].
  split; [reflexivity |]. split; [vm_compute; reflexivity |].
  split; [vm_compute; reflexivity |].
  split; [reflexivity |]. split; [reflexivity |].
  discriminate.
Qed.

(** C3. With [maxlen = 2] and [d_model = 4] the position ids of a call are
    [[0, 1, 2, 3]]; ids 2 and 3 have no row in the two-row position table, the
    lookup raises [IndexError] and so does the call. *)
Theorem forward_position_index_out_of_range :
  exists tokens pos,
    forward_tokens cat_batch (short_table_model 2) = (Ok tokens, short_table_model 2) /\
    forward_pos tokens = Ok pos /\
    tolist2 pos = [[0; 1; 2; 3]] /\
    num_embeddings (pos_embed (short_table_model 2)) = 2%nat /\
    index_ok (pos_embed (short_table_model 2)) (item2 pos 0 2) = false /\
    run (forward_pos_embed pos) (short_table_model 2) = Err IndexError /\
    forward cat_batch (short_table_model 2) = (Err IndexError, short_table_model 2).
Proof.
  do 2 eexists.
  split; [reflexivity |]. split; [reflexivity |].
  split; [vm_compute; reflexivity |].
  repeat split.
Qed.

(** C8. With [maxlen = 3] and [d_model = 4] a call raises [IndexError]
    although every segment id is 0 and the segment table has two rows: the
    exception comes from the position lookup. *)
Theorem forward_index_error_without_bad_segment :
  exists tokens,
    forward_tokens mat_batch (short_table_model 3) = (Ok tokens, short_table_model 3) /\
    num_embeddings (seg_embed (short_table_model 3)) = 2%nat /\
    tolist2 (forward_segments tokens) = [[0; 0; 0; 0]; [0; 0; 0; 0]] /\
    indices_ok (seg_embed (short_table_model 3)) (forward_segments tokens) = true /\
    is_ok (run (forward_seg_embed (forward_segments tokens)) (short_table_model 3)) = true /\
    forward mat_batch (short_table_model 3) = (Err IndexError, short_table_model 3).
Proof.
  eexists.
  split; [reflexivity |]. split; [reflexivity |].
  split; [vm_compute; reflexivity |].
  repeat split.
Qed.

(** ** The corpus cells *)

Local Close Scope Z_scope.
Local Close Scope string_scope.
Local Open Scope list_scope.

Lemma comprehension_ok_iff {A B} (f : A -> result B) (l : list A) (r : list B) :
  comprehension f l = Ok r <-> Forall2 (fun a b => f a = Ok b) l r.
Proof.
  revert r. induction l as [| a l IH]; intros r; simpl.
  - split.
    + intros E. injection E as <-. constructor.
    + intros E. inversion E. reflexivity.
  - unfold rbind. split.
    + destruct (f a) as [b |] eqn:Ea; [| discriminate].
      destruct (comprehension f l) as [bs |] eqn:El; [| discriminate].
      intros E. injection E as <-. constructor; [exact Ea | now apply IH].
    + intros E. inversion E as [| a' b l' bs Ea Hl]; subst.
      rewrite Ea. apply IH in Hl. now rewrite Hl.
Qed.

Lemma comprehension_first_error {A B} (f : A -> result B) pre a post bs ex :
  comprehension f pre = Ok bs ->
  f a = Err ex ->
  comprehension f (pre ++ a :: post) = Err ex.
Proof.
  revert bs. induction pre as [| p pre IH]; intros bs Hpre Ha; simpl.
  - now rewrite Ha.
  - simpl in Hpre. unfold rbind in *.
    destruct (f p); [| discriminate].
    destruct (comprehension f pre) as [bs' |] eqn:E; [| discriminate].
    now rewrite (IH bs' eq_refl Ha).
Qed.

Lemma fold_max_ge (l : list nat) (a : nat) :
  a <= fold_left Nat.max l a /\ Forall (fun n => n <= fold_left Nat.max l a) l.
Proof.
  revert a. induction l as [| n l IH]; intros a; simpl.
  - split; [lia | constructor].
  - destruct (IH (Nat.max a n)) as [H1 H2]. split; [lia |].
    constructor; [lia | exact H2].
Qed.

Lemma fold_max_in (l : list nat) (a : nat) :
  fold_left Nat.max l a = a \/ In (fold_left Nat.max l a) l.
Proof.
  revert a. induction l as [| n l IH]; intros a; simpl.
  - now left.
  - destruct (IH (Nat.max a n)) as [E | Hin].
    + rewrite E. destruct (Nat.max_spec a n) as [[_ ->] | [_ ->]]; [right | left]; auto.
    + right. now right.
Qed.

Lemma py_max_spec (l : list nat) (m : nat) :
  py_max l = Ok m -> In m l /\ Forall (fun n => n <= m) l.
Proof.
  destruct l as [| a l]; [discriminate |]. simpl. intros E. injection E as <-.
  destruct (fold_max_ge l a) as [H1 H2]. split.
  - destruct (fold_max_in l a) as [-> | Hin]; [now left | now right].
  - constructor; assumption.
Qed.

Lemma has_upper_START : has_upper START_TOKEN = true.
Proof. reflexivity. Qed.

Lemma has_upper_END : has_upper END_TOKEN = true.
Proof. reflexivity. Qed.

Section CorpusFacts.

Variable reuters_fileids : string -> result (list string).
Variable reuters_words : string -> result (list string).
Variable lower : string -> string.
Variable set_iteration : list string -> list string.

Lemma document_length ws : List.length (document lower ws) = List.length ws + 2.
Proof. unfold document. simpl. rewrite length_app, length_map. simpl. lia. Qed.

Lemma document_last ws : last (document lower ws) EmptyString = END_TOKEN.
Proof.
  unfold document.
  change ([START_TOKEN] ++ map lower ws ++ [END_TOKEN])%list
    with ((START_TOKEN :: map lower ws) ++ [END_TOKEN])%list.
  apply last_last.
Qed.

Lemma read_corpus_inv category corpus :
  read_corpus reuters_fileids reuters_words lower category = Ok corpus ->
  exists files,
    reuters_fileids category = Ok files /\
    Forall2 (fun f doc => exists ws, reuters_words f = Ok ws /\ doc = document lower ws)
            files corpus.
Proof.
  unfold read_corpus, rbind.
  destruct (reuters_fileids category) as [files |]; [| discriminate].
  intros E. exists files. split; [reflexivity |].
  apply comprehension_ok_iff in E.
  induction E as [| f doc fs docs Hf _ IH]; constructor; [| exact IH].
  destruct (reuters_words f) as [ws |]; [| discriminate].
  injection Hf as <-. now exists ws.
Qed.

Lemma lowered_not_marker ws marker :
  lower_contract lower ->
  has_upper marker = true ->
  ~ In marker (map lower ws).
Proof.
  intros Hlow Hm Hin.
  apply in_map_iff in Hin as (w & E & _).
  specialize (Hlow w). rewrite E in Hlow. congruence.
Qed.

End CorpusFacts.

Section CorpusProperties.

Variable reuters_fileids : string -> result (list string).
Variable reuters_words : string -> result (list string).
Variable lower : string -> string.
Variable set_iteration : list string -> list string.

(** X1. When [read_corpus] returns, the corpus has one document per file of
    the category, in the order of the files; a document has two entries more
    than the file has words, starts with [START_TOKEN] and ends with
    [END_TOKEN] (so a file without words gives a two-entry document). *)
Theorem read_corpus_documents category corpus :
  read_corpus reuters_fileids reuters_words lower category = Ok corpus ->
  exists files,
    reuters_fileids category = Ok files /\
    Forall2 (fun f doc =>
               exists ws, reuters_words f = Ok ws /\
                 List.length doc = List.length ws + 2 /\
                 hd_error doc = Some START_TOKEN /\
                 last doc EmptyString = END_TOKEN)
            files corpus.
Proof.
  intros Hrun. apply read_corpus_inv in Hrun as (files & Hf & Hall).
  exists files. split; [exact Hf |].
  revert Hall. apply Forall2_impl. intros f doc (ws & Hw & ->).
  exists ws. split; [exact Hw |]. split; [apply document_length |].
  split; [reflexivity | apply document_last].
Qed.

(** X2. Words are lowercased and both markers contain capitals, so no word of
    a file can be taken for a marker: in every document of a corpus that
    [read_corpus] returns, [START_TOKEN] and [END_TOKEN] occur exactly
    once. *)
Theorem read_corpus_markers_once category corpus :
  lower_contract lower ->
  read_corpus reuters_fileids reuters_words lower category = Ok corpus ->
  Forall (fun doc =>
            count_occ string_dec doc START_TOKEN = 1 /\
            count_occ string_dec doc END_TOKEN = 1)
         corpus.
Proof.
  intros Hlow Hrun. apply read_corpus_inv in Hrun as (files & _ & Hall).
  induction Hall as [| f doc fs docs (ws & _ & ->) _ IH]; [constructor |].
  constructor; [| exact IH].
  unfold document.
  assert (HS : ~ In START_TOKEN (map lower ws))
    by (apply lowered_not_marker; [exact Hlow | reflexivity]).
  assert (HE : ~ In END_TOKEN (map lower ws))
    by (apply lowered_not_marker; [exact Hlow | reflexivity]).
  apply (count_occ_not_In string_dec) in HS, HE.
  rewrite !count_occ_app, HS, HE.
  split; reflexivity.
Qed.

(** X3. [distinct_words] lists every word that occurs in some document of the
    corpus, lists it once, lists nothing else, and returns the length of that
    list as the count. *)
Theorem distinct_words_each_word_once corpus :
  set_iteration_contract set_iteration ->
  NoDup (fst (distinct_words set_iteration corpus)) /\
  (forall y, In y (fst (distinct_words set_iteration corpus)) <->
             exists doc, In doc corpus /\ In y doc) /\
  snd (distinct_words set_iteration corpus) =
    Z.of_nat (List.length (fst (distinct_words set_iteration corpus))).
Proof.
  intros Hset. unfold distinct_words. simpl.
  destruct (Hset (List.concat corpus)) as [Hnd Hin].
  split; [exact Hnd |]. split; [| reflexivity].
  intros y. rewrite Hin, in_concat. reflexivity.
Qed.

(** X4. The count [distinct_words] returns is never the initial [-1]: it lies
    between 0 and the number of word occurrences of the corpus, and it is 0
    exactly when the corpus has no word at all (no document, or only empty
    ones). *)
Theorem distinct_words_count_bounds corpus :
  set_iteration_contract set_iteration ->
  (0 <= snd (distinct_words set_iteration corpus)
     <= Z.of_nat (List.length (List.concat corpus)))%Z /\
  (snd (distinct_words set_iteration corpus) = 0%Z <->
   Forall (fun doc => doc = []) corpus).
Proof.
  intros Hset. unfold distinct_words. simpl.
  destruct (Hset (List.concat corpus)) as [Hnd Hin].
  split.
  - split; [lia |]. apply inj_le. apply NoDup_incl_length; [exact Hnd |].
    intros y Hy. now apply Hin.
  - split.
    + intros Hz. apply Forall_forall. intros doc Hdoc.
      destruct doc as [| w doc]; [reflexivity | exfalso].
      assert (Hw : In w (set_iteration (List.concat corpus))).
      { apply Hin, in_concat. exists (w :: doc). split; [exact Hdoc | now left]. }
      destruct (set_iteration (List.concat corpus)); [contradiction | simpl in Hz; lia].
    + intros Hall.
      destruct (set_iteration (List.concat corpus)) as [| w l] eqn:E; [reflexivity |].
      exfalso. assert (Hw : In w (List.concat corpus)) by (apply Hin; now left).
      apply in_concat in Hw as (doc & Hdoc & Hwd).
      rewrite Forall_forall in Hall. rewrite (Hall doc Hdoc) in Hwd. contradiction.
Qed.

(** X5. The result of [distinct_words] depends only on which words occur: two
    corpora with the same words (in any order, any number of times, split
    into documents in any way) give the same count, and lists that are
    rearrangements of one another. *)
Theorem distinct_words_same_vocabulary corpus1 corpus2 :
  set_iteration_contract set_iteration ->
  (forall y, In y (List.concat corpus1) <-> In y (List.concat corpus2)) ->
  Permutation (fst (distinct_words set_iteration corpus1))
              (fst (distinct_words set_iteration corpus2)) /\
  snd (distinct_words set_iteration corpus1) = snd (distinct_words set_iteration corpus2).
Proof.
  intros Hset Hsame. unfold distinct_words. simpl.
  destruct (Hset (List.concat corpus1)) as [Hnd1 Hin1].
  destruct (Hset (List.concat corpus2)) as [Hnd2 Hin2].
  assert (HP : Permutation (set_iteration (List.concat corpus1))
                           (set_iteration (List.concat corpus2))).
  { apply NoDup_Permutation; try assumption.
    intros y. rewrite Hin1, Hin2. apply Hsame. }
  split; [exact HP |]. f_equal. now apply Permutation_length.
Qed.

End CorpusProperties.

Lemma comprehension_total {A B} (f : A -> result B) (l : list A) :
  Forall (fun a => is_ok (f a) = true) l ->
  exists r, comprehension f l = Ok r /\ List.length r = List.length l.
Proof.
  induction 1 as [| a l Ha _ (r & E & Hlen)]; simpl.
  - now exists [].
  - unfold rbind. destruct (f a) as [b |]; [| discriminate].
    rewrite E. exists (b :: r). simpl. now rewrite Hlen.
Qed.

Lemma comprehension_error_split {A B} (f : A -> result B) (l : list A) ex :
  comprehension f l = Err ex ->
  exists pre a post bs,
    l = pre ++ a :: post /\ comprehension f pre = Ok bs /\ f a = Err ex.
Proof.
  induction l as [| a l IH]; simpl; [discriminate |]. unfold rbind.
  destruct (f a) as [b |] eqn:Ea.
  - destruct (comprehension f l) as [bs |] eqn:El; [discriminate |].
    intros E. injection E as ->.
    destruct (IH eq_refl) as (pre & a' & post & bs & -> & Hpre & Ha').
    exists (a :: pre), a', post, (b :: bs). split; [reflexivity |].
    split; [| exact Ha']. simpl. unfold rbind. now rewrite Ea, Hpre.
  - intros E. injection E as ->. exists [], a, l, []. now repeat split.
Qed.

Section CorpusCells.

Variable reuters_fileids : string -> result (list string).
Variable reuters_words : string -> result (list string).
Variable lower : string -> string.
Variable set_iteration : list string -> list string.

Lemma read_corpus_words category corpus :
  read_corpus reuters_fileids reuters_words lower category = Ok corpus ->
  exists files wss,
    reuters_fileids category = Ok files /\
    Forall2 (fun f ws => reuters_words f = Ok ws) files wss /\
    corpus = map (document lower) wss.
Proof.
  intros Hrun. apply read_corpus_inv in Hrun as (files & Hf & Hall).
  assert (Hex : exists wss,
             Forall2 (fun f ws => reuters_words f = Ok ws) files wss /\
             corpus = map (document lower) wss).
  { clear Hf.
    induction Hall as [| f doc fs docs (ws & Hw & ->) _ (wss & Hwss & ->)].
    - exists []. split; [constructor | reflexivity].
    - exists (ws :: wss). split; [constructor; assumption | reflexivity]. }
  destruct Hex as (wss & Hwss & ->). now exists files, wss.
Qed.

Lemma in_concat_documents (wss : list (list string)) (y : string) :
  In y (List.concat (map (document lower) wss)) <->
  (wss <> [] /\ (y = START_TOKEN \/ y = END_TOKEN)) \/
  In y (map lower (List.concat wss)).
Proof.
  induction wss as [| ws wss IH].
  - simpl. split; [contradiction | intros [[Hne _] | []]; now apply Hne].
  - change (List.concat (map (document lower) (ws :: wss)))
      with (document lower ws ++ List.concat (map (document lower) wss)).
    change (List.concat (ws :: wss)) with (ws ++ List.concat wss).
    rewrite map_app, !in_app_iff, IH. unfold document. simpl. rewrite in_app_iff. simpl.
    assert (Hne : ws :: wss <> []) by discriminate.
    intuition (subst; auto).
Qed.

(** X6. For a category with at least one file, the count [distinct_words]
    returns on the corpus of [read_corpus] is the number of distinct
    lowercased words of the files plus two: the two markers are counted as
    words, and no word of a file coincides with one of them. *)
Theorem distinct_words_of_read_corpus category corpus :
  lower_contract lower ->
  set_iteration_contract set_iteration ->
  read_corpus reuters_fileids reuters_words lower category = Ok corpus ->
  corpus <> [] ->
  exists files wss,
    reuters_fileids category = Ok files /\
    Forall2 (fun f ws => reuters_words f = Ok ws) files wss /\
    In START_TOKEN (fst (distinct_words set_iteration corpus)) /\
    In END_TOKEN (fst (distinct_words set_iteration corpus)) /\
    snd (distinct_words set_iteration corpus) =
      (Z.of_nat (List.length (nodup string_dec (map lower (List.concat wss)))) + 2)%Z.
Proof.
  intros Hlow Hset Hrun Hne.
  destruct (read_corpus_words _ Hrun) as (files & wss & Hf & Hw & ->).
  exists files, wss. split; [exact Hf |]. split; [exact Hw |].
  assert (Hwss : wss <> []) by (intros ->; now apply Hne).
  unfold distinct_words. simpl.
  destruct (Hset (List.concat (map (document lower) wss))) as [Hnd Hin].
  set (cw := set_iteration _) in *.
  set (inner := map lower (List.concat wss)).
  assert (HS : ~ In START_TOKEN inner)
    by (apply lowered_not_marker; [exact Hlow | reflexivity]).
  assert (HE : ~ In END_TOKEN inner)
    by (apply lowered_not_marker; [exact Hlow | reflexivity]).
  split; [apply Hin, in_concat_documents; left; split; [exact Hwss | now left] |].
  split; [apply Hin, in_concat_documents; left; split; [exact Hwss | now right] |].
  assert (HP : Permutation cw (START_TOKEN :: END_TOKEN :: nodup string_dec inner)).
  { apply NoDup_Permutation; [exact Hnd | |].
    - constructor; [| constructor; [| apply NoDup_nodup]].
      + intros [E | Hn]; [discriminate | now apply nodup_In in Hn].
      + intros Hn. now apply nodup_In in Hn.
    - intros y. rewrite Hin, in_concat_documents. simpl. rewrite nodup_In.
      split.
      + intros [[_ [-> | ->]] | Hy]; auto.
      + intros [<- | [<- | Hy]]; auto. }
  apply Permutation_length in HP. rewrite HP. simpl. lia.
Qed.

(** X7. When the loading cell completes, the corpus is not empty, every
    sentence has between 2 and [max_sent_length] entries, and some sentence
    has exactly [max_sent_length] entries. *)
Theorem load_corpus_lengths g :
  load_corpus reuters_fileids reuters_words lower set_iteration = Ok g ->
  reuters_corpus g <> [] /\
  Forall (fun sentence => 2 <= List.length sentence <= max_sent_length g)
         (reuters_corpus g) /\
  Exists (fun sentence => List.length sentence = max_sent_length g) (reuters_corpus g).
Proof.
  unfold load_corpus, rbind.
  destruct (read_corpus _ _ _ _) as [rc |] eqn:Hrun; [| discriminate].
  unfold distinct_words.
  destruct (py_max (map (@List.length string) rc)) as [m |] eqn:Hmax; [| discriminate].
  intros E. injection E as <-. simpl.
  destruct (py_max_spec _ Hmax) as [Hin Hall].
  destruct (read_corpus_words _ Hrun) as (files & wss & _ & _ & ->).
  split; [| split].
  - intros E. rewrite E in Hin. contradiction.
  - apply Forall_forall. intros s Hs. split.
    + apply in_map_iff in Hs as (ws & <- & _). rewrite document_length. lia.
    + rewrite Forall_forall in Hall. apply Hall. now apply in_map.
  - apply Exists_exists. apply in_map_iff in Hin as (s & E & Hs). now exists s.
Qed.

(** X8. If the reader lists at least one file for the category ["gold"] and
    can read each of them, the loading cell completes: [max] is given a
    non-empty sequence, the corpus has one sentence per file, in order, and
    the sentence of a file is its lowercased words between the two
    markers. *)
Theorem load_corpus_completes files wss :
  reuters_fileids "gold"%string = Ok files ->
  files <> [] ->
  Forall2 (fun f ws => reuters_words f = Ok ws) files wss ->
  exists g,
    load_corpus reuters_fileids reuters_words lower set_iteration = Ok g /\
    List.length (reuters_corpus g) = List.length files /\
    reuters_corpus g = map (document lower) wss.
Proof.
  intros Hf Hne Hw. unfold load_corpus, read_corpus. rewrite Hf. cbn [rbind].
  assert (Hc : comprehension
                 (fun f => rbind (reuters_words f) (fun ws => Ok (document lower ws)))
                 files = Ok (map (document lower) wss)).
  { apply comprehension_ok_iff. clear Hf Hne.
    induction Hw as [| f ws fs wss' Hfw _ IH]; [constructor |].
    simpl. constructor; [| exact IH]. now rewrite Hfw. }
  rewrite Hc. cbn [rbind]. unfold distinct_words.
  destruct wss as [| ws wss]; [inversion Hw; subst; congruence |].
  simpl. eexists. split; [reflexivity |]. split; [| reflexivity].
  simpl. apply Forall2_length in Hw. simpl in Hw. now rewrite length_map, Hw.
Qed.

End CorpusCells.

(** *** The encoding cell *)

Lemma last_cons_default {A} (a d : A) (l : list A) : last (a :: l) d = last l a.
Proof.
  revert a d. induction l as [| b l IH]; intros a d; [reflexivity |].
  change (last (a :: b :: l) d) with (last (b :: l) d).
  now rewrite (IH b d), (IH b a).
Qed.

Section EncodingCell.

Variable tok : Tokenizer.
Variable max_length : nat.

Lemma encode_loop_completes corpus encs g :
  comprehension (fun sentence => tok sentence max_length) corpus = Ok encs ->
  for_each corpus (fun sentence =>
    bind (call (tok sentence max_length)) (fun enc =>
    bind (update (fun g => Build_encoding_globals (encoded_sentences g) (Some enc))) (fun _ =>
    update (fun g => Build_encoding_globals (encoded_sentences g ++ [enc])
                                            (encoded_sentence g))))) g
  = (Ok tt, Build_encoding_globals (encoded_sentences g ++ encs)
                                   (last (map Some encs) (encoded_sentence g))).
Proof.
  revert encs g. induction corpus as [| s corpus IH]; intros encs g Hc.
  - simpl in Hc. injection Hc as <-. simpl. unfold ret.
    rewrite app_nil_r. now destruct g.
  - simpl in Hc. unfold rbind in Hc.
    destruct (tok s max_length) as [enc |] eqn:Es; [| discriminate].
    destruct (comprehension _ corpus) as [encs' |] eqn:Ec; [| discriminate].
    injection Hc as <-.
    cbn [for_each]. unfold bind at 1. unfold bind at 1, call at 1. rewrite Es.
    unfold bind at 1, update at 1 2. cbn [encoded_sentences encoded_sentence].
    rewrite (IH encs' _ eq_refl). cbn [encoded_sentences encoded_sentence].
    rewrite <- app_assoc. cbn [map app]. now rewrite last_cons_default.
Qed.

Lemma encode_loop_raises pre bad post encs ex g :
  comprehension (fun sentence => tok sentence max_length) pre = Ok encs ->
  tok bad max_length = Err ex ->
  for_each (pre ++ bad :: post) (fun sentence =>
    bind (call (tok sentence max_length)) (fun enc =>
    bind (update (fun g => Build_encoding_globals (encoded_sentences g) (Some enc))) (fun _ =>
    update (fun g => Build_encoding_globals (encoded_sentences g ++ [enc])
                                            (encoded_sentence g))))) g
  = (Err ex, Build_encoding_globals (encoded_sentences g ++ encs)
                                    (last (map Some encs) (encoded_sentence g))).
Proof.
  revert encs g. induction pre as [| s pre IH]; intros encs g Hc Hbad.
  - simpl in Hc. injection Hc as <-. cbn [app for_each].
    unfold bind at 1. unfold bind at 1, call at 1. rewrite Hbad.
    simpl. rewrite app_nil_r. now destruct g.
  - simpl in Hc. unfold rbind in Hc.
    destruct (tok s max_length) as [enc |] eqn:Es; [| discriminate].
    destruct (comprehension _ pre) as [encs' |] eqn:Ec; [| discriminate].
    injection Hc as <-.
    change ((s :: pre) ++ bad :: post) with (s :: (pre ++ bad :: post)).
    cbn [for_each]. unfold bind at 1. unfold bind at 1, call at 1. rewrite Es.
    unfold bind at 1, update at 1 2. cbn [encoded_sentences encoded_sentence].
    rewrite (IH encs' _ eq_refl Hbad). cbn [encoded_sentences encoded_sentence].
    rewrite <- app_assoc. cbn [map app]. now rewrite last_cons_default.
Qed.


(** X10. When the tokenizer raises on a sentence, the encoding cell raises the
    same exception and stops: [encoded_sentences] then holds the tensors of
    the sentences before that one and nothing else, and the loop variable
    still holds the last tensor obtained. *)
Theorem encode_sentences_first_error pre bad post encs ex g0 :
  comprehension (fun sentence => tok sentence max_length) pre = Ok encs ->
  tok bad max_length = Err ex ->
  encode_sentences tok (pre ++ bad :: post) max_length g0 =
    (Err ex, Build_encoding_globals encs (last (map Some encs) (encoded_sentence g0))).
Proof.
  intros Hpre Hbad. unfold encode_sentences.
  unfold bind at 1, update at 1.
  now rewrite (encode_loop_raises _ post _ Hpre Hbad).
Qed.

End EncodingCell.

(** ** Every outcome of [forward] *)

Section Outcomes.

Context {F : Type} `{Scalar F}.

Implicit Types (e : Embedding F) (x : list string) (tokens pos : tensor2 Z).

Lemma forward_run_unfold x e tokens pos te :
  tokenizer e x (d_model e) = Ok tokens ->
  forward_pos tokens = Ok pos ->
  bert_model e tokens = Ok te ->
  run (forward x) e =
  rbind (Embedding_lookup (pos_embed e) pos) (fun pe =>
  rbind (tensor_add te pe) (fun s1 =>
  rbind (Embedding_lookup (seg_embed e) (forward_segments tokens)) (fun se =>
  rbind (tensor_add s1 se) (fun emb =>
  LayerNorm_apply (norm e) emb)))).
Proof.
  intros Et Ep Ee.
  unfold run, forward, forward_tokens, forward_token_embeddings, forward_sum,
    forward_pos_embed, forward_seg_embed, forward_norm, bind, ret, getattr, call, rbind.
  rewrite Et, Ep, Ee.
  destruct (Embedding_lookup (pos_embed e) pos); [| reflexivity].
  destruct (tensor_add te _); [| reflexivity].
  destruct (Embedding_lookup (seg_embed e) _); [| reflexivity].
  destruct (tensor_add _ _); [| reflexivity].
  destruct (LayerNorm_apply _ _); reflexivity.
Qed.

Lemma tensor_add_shape (a b : tensor3 F) d0 d1 d2 :
  bdim (dim0 a) (dim0 b) = Some d0 ->
  bdim (dim1 a) (dim1 b) = Some d1 ->
  bdim (dim2 a) (dim2 b) = Some d2 ->
  exists s, tensor_add a b = Ok s /\ shape3 s = (d0, d1, d2).
Proof.
  intros E0 E1 E2. unfold tensor_add. rewrite E0, E1, E2.
  eexists. split; reflexivity.
Qed.

Lemma tensor_add_mismatch (a b : tensor3 F) :
  bdim (dim2 a) (dim2 b) = None -> tensor_add a b = Err RuntimeError.
Proof.
  intros E. unfold tensor_add. rewrite E.
  destruct (bdim (dim0 a) (dim0 b)), (bdim (dim1 a) (dim1 b)); reflexivity.
Qed.

(** The three ways a call can end once both collaborators have answered. *)
Lemma forward_outcome x e tokens te hidden :
  Embedding_wf e ->
  tokenizer e x (d_model e) = Ok tokens ->
  bert_model e tokens = Ok te ->
  shape3 te = (size0 tokens, size1 tokens, hidden) ->
  (0 < size0 tokens /\ maxlen_of e < size1 tokens /\
   run (forward x) e = Err IndexError)
  \/ ((size0 tokens = 0 \/ size1 tokens <= maxlen_of e) /\
      (hidden = d_model e \/ hidden = 1) /\
      is_ok (run (forward x) e) = true)
  \/ ((size0 tokens = 0 \/ size1 tokens <= maxlen_of e) /\
      hidden <> d_model e /\ hidden <> 1 /\
      run (forward x) e = Err RuntimeError).
Proof.
  intros Hwf Et Ee Hte.
  destruct (forward_pos_spec tokens) as (pos & Ep & _).
  rewrite (forward_run_unfold x e Et Ep Ee).
  destruct (Embedding_lookup_cases (pos_embed e) pos) as [[Hok El] | [Hbad El]].
  2:{ left. apply (pos_lookup_raises_iff (pos_embed e) tokens Ep) in El as [Hb Hl].
      rewrite (proj2 (pos_lookup_raises_iff (pos_embed e) tokens Ep) (conj Hb Hl)).
      now repeat split. }
  right. apply (pos_indices_ok_iff (pos_embed e) tokens Ep) in Hok.
  set (pe := Tensor3 _ _ _ _) in El.
  destruct (pos_lookup_value (pos_embed e) tokens Ep El) as [Hpe _].
  rewrite (wf_pos_dim Hwf) in Hpe.
  destruct (seg_lookup_value (seg_embed e) tokens) as (se & Es & Hse & _).
  { rewrite (wf_seg_num Hwf). lia. }
  rewrite (wf_seg_dim Hwf) in Hse.
  rewrite El. cbn [rbind].
  assert (T0 : dim0 te = size0 tokens) by now injection Hte.
  assert (T1 : dim1 te = size1 tokens) by now injection Hte.
  assert (T2 : dim2 te = hidden) by now injection Hte.
  assert (P0 : dim0 pe = size0 tokens) by now injection Hpe.
  assert (P1 : dim1 pe = size1 tokens) by now injection Hpe.
  assert (P2 : dim2 pe = d_model e) by now injection Hpe.
  assert (S0 : dim0 se = size0 tokens) by now injection Hse.
  assert (S1 : dim1 se = size1 tokens) by now injection Hse.
  assert (S2 : dim2 se = d_model e) by now injection Hse.
  destruct (bdim hidden (d_model e)) as [d2 |] eqn:Eb.
  - destruct (@tensor_add_shape te pe (size0 tokens) (size1 tokens) d2) as (s1 & Ea & Hs1).
    { rewrite T0, P0. apply bdim_same. }
    { rewrite T1, P1. apply bdim_same. }
    { now rewrite T2, P2. }
    rewrite Ea. cbn [rbind]. rewrite Es. cbn [rbind].
    assert (A0 : dim0 s1 = size0 tokens) by now injection Hs1.
    assert (A1 : dim1 s1 = size1 tokens) by now injection Hs1.
    assert (A2 : dim2 s1 = d2) by now injection Hs1.
    assert (Hd2 : (d2 = d_model e /\ (hidden = d_model e \/ hidden = 1)) \/
                  (d2 = hidden /\ d_model e = 1 /\ hidden <> 1)).
    { unfold bdim in Eb.
      destruct (Nat.eqb_spec hidden (d_model e)); [left; split; [congruence | now left] |].
      destruct (Nat.eqb_spec hidden 1); [left; split; [congruence | now right] |].
      destruct (Nat.eqb_spec (d_model e) 1); [right | discriminate].
      split; [congruence | now split]. }
    destruct Hd2 as [[-> Hh] | (-> & Hd1 & Hh1)].
    + left. split; [exact Hok |]. split; [exact Hh |].
      destruct (@tensor_add_shape s1 se (size0 tokens) (size1 tokens) (d_model e))
        as (emb & Eb' & Hemb).
      { rewrite A0, S0. apply bdim_same. }
      { rewrite A1, S1. apply bdim_same. }
      { rewrite A2, S2. apply bdim_same. }
      rewrite Eb'. cbn [rbind]. unfold LayerNorm_apply.
      assert (E2 : dim2 emb = d_model e) by now injection Hemb.
      rewrite E2, (wf_norm Hwf), Nat.eqb_refl. reflexivity.
    + right. split; [exact Hok |]. split; [lia |]. split; [exact Hh1 |].
      destruct (@tensor_add_shape s1 se (size0 tokens) (size1 tokens) hidden)
        as (emb & Eb' & Hemb).
      { rewrite A0, S0. apply bdim_same. }
      { rewrite A1, S1. apply bdim_same. }
      { rewrite A2, S2, Hd1. unfold bdim.
        destruct (Nat.eqb_spec hidden 1); [contradiction | reflexivity]. }
      rewrite Eb'. cbn [rbind]. unfold LayerNorm_apply.
      assert (E2 : dim2 emb = hidden) by now injection Hemb.
      rewrite E2, (wf_norm Hwf), Hd1.
      destruct (Nat.eqb_spec hidden 1); [contradiction | reflexivity].
  - right. split; [exact Hok |].
    assert (Hne : hidden <> d_model e /\ hidden <> 1).
    { unfold bdim in Eb.
      destruct (Nat.eqb_spec hidden (d_model e)); [discriminate |].
      destruct (Nat.eqb_spec hidden 1); [discriminate |]. now split. }
    destruct Hne as [Hn1 Hn2]. split; [exact Hn1 |]. split; [exact Hn2 |].
    rewrite tensor_add_mismatch; [reflexivity |]. now rewrite T2, P2.
Qed.

End Outcomes.

Section OutcomeProperties.

Context {F : Type} `{Scalar F}.

Implicit Types (e : Embedding F) (x : list string) (tokens pos : tensor2 Z).

(** X11. Once the tokenizer and the encoder have answered, a call returns
    exactly when (a) the batch is empty or the position table has a row for
    every position, and (b) the encoder's vectors have width [d_model] or
    width 1. *)
Theorem forward_returns_exactly_when x e tokens te hidden :
  Embedding_wf e ->
  tokenizer e x (d_model e) = Ok tokens ->
  bert_model e tokens = Ok te ->
  shape3 te = (size0 tokens, size1 tokens, hidden) ->
  is_ok (run (forward x) e) = true <->
  (size0 tokens = 0 \/ size1 tokens <= maxlen_of e) /\
  (hidden = d_model e \/ hidden = 1).
Proof.
  intros Hwf Et Ee Hte.
  destruct (forward_outcome x Hwf Et Ee Hte)
    as [(Hb & Hl & E) | [(Hfit & Hh & E) | (Hfit & Hn1 & Hn2 & E)]].
  - rewrite E. simpl. split; [discriminate | lia].
  - split; [now split | intros _; exact E].
  - rewrite E. simpl. split; [discriminate |]. intros [_ [? | ?]]; contradiction.
Qed.

(** X12. Once the tokenizer and the encoder have answered, a call raises
    [IndexError] exactly when the batch is not empty and the position table
    has fewer rows than the token tensor has columns, whatever the width of
    the encoder's vectors; it raises [RuntimeError] exactly when the positions
    fit and that width is neither [d_model] nor 1. *)
Theorem forward_error_kind x e tokens te hidden :
  Embedding_wf e ->
  tokenizer e x (d_model e) = Ok tokens ->
  bert_model e tokens = Ok te ->
  shape3 te = (size0 tokens, size1 tokens, hidden) ->
  (run (forward x) e = Err IndexError <->
   0 < size0 tokens /\ maxlen_of e < size1 tokens) /\
  (run (forward x) e = Err RuntimeError <->
   (size0 tokens = 0 \/ size1 tokens <= maxlen_of e) /\
   hidden <> d_model e /\ hidden <> 1).
Proof.
  intros Hwf Et Ee Hte.
  destruct (forward_outcome x Hwf Et Ee Hte)
    as [(Hb & Hl & E) | [(Hfit & Hh & E) | (Hfit & Hn1 & Hn2 & E)]].
  - rewrite E. split; split; try discriminate; try lia. now split.
  - destruct (run (forward x) e); [| discriminate].
    split; split; try discriminate; lia.
  - rewrite E. split; split; try discriminate; try lia. now repeat split.
Qed.

(** X13. An exception of the tokenizer, or of the encoder when the tokenizer
    has answered, leaves [forward] as it is and the instance untouched; the
    encoder's exception is the one raised even when the position table is too
    short for the batch. *)
Theorem forward_collaborator_error x e ex :
  (tokenizer e x (d_model e) = Err ex \/
   exists tokens, tokenizer e x (d_model e) = Ok tokens /\ bert_model e tokens = Err ex) ->
  forward x e = (Err ex, e).
Proof.
  intros [Et | (tokens & Et & Ee)];
    unfold forward, forward_tokens, forward_token_embeddings, bind, ret, getattr, call;
    rewrite Et; [reflexivity |].
  destruct (forward_pos_spec tokens) as (pos & -> & _). now rewrite Ee.
Qed.

(** X14. If the token tensor the tokenizer returns for the input is empty or
    has no more columns than the position table has rows, and the encoder
    answers on it with one vector of width [d_model] per token, the module
    adds no failure of its own: the call raises exactly when the tokenizer or
    the encoder raises, and raises that exception.  Nothing is assumed of the
    tokenizer beyond the tensor it returns for this call. *)
Theorem forward_fails_only_with_collaborators x e ex :
  Embedding_wf e ->
  (forall tokens, tokenizer e x (d_model e) = Ok tokens ->
     size0 tokens = 0 \/ size1 tokens <= maxlen_of e) ->
  (forall tokens te,
     tokenizer e x (d_model e) = Ok tokens -> bert_model e tokens = Ok te ->
     shape3 te = (size0 tokens, size1 tokens, d_model e)) ->
  run (forward x) e = Err ex <->
  (tokenizer e x (d_model e) = Err ex \/
   exists tokens, tokenizer e x (d_model e) = Ok tokens /\ bert_model e tokens = Err ex).
Proof.
  intros Hwf Hfit Henc. split.
  - intros Hrun.
    destruct (tokenizer e x (d_model e)) as [tokens | ex'] eqn:Et.
    + right. exists tokens. split; [reflexivity |].
      destruct (bert_model e tokens) as [te | ex''] eqn:Ee.
      * exfalso.
        assert (Hok : is_ok (run (forward x) e) = true).
        { destruct (forward_outcome x Hwf Et Ee (Henc _ _ eq_refl Ee))
            as [(Hb & Hl & _) | [(_ & _ & E) | (_ & Hn & _)]];
            [| exact E | congruence].
          destruct (Hfit _ eq_refl); lia. }
        rewrite Hrun in Hok. discriminate.
      * assert (E : forward x e = (Err ex'', e)).
        { unfold forward, forward_tokens, forward_token_embeddings,
            bind, ret, getattr, call. rewrite Et.
          destruct (forward_pos_spec tokens) as (pos & -> & _). now rewrite Ee. }
        unfold run in Hrun. rewrite E in Hrun. exact Hrun.
    + left. unfold run, forward, forward_tokens, bind, getattr, call in Hrun.
      rewrite Et in Hrun. simpl in Hrun. now injection Hrun as ->.
  - intros [Et | (tokens & Et & Ee)];
      unfold run, forward, forward_tokens, forward_token_embeddings,
        bind, ret, getattr, call;
      rewrite Et; [reflexivity |].
    destruct (forward_pos_spec tokens) as (pos & -> & _). now rewrite Ee.
Qed.

(** X17. In a call that returns, the result has one vector of width
    [d_model] for every entry of the token tensor the tokenizer returned: its
    shape is [[rows, columns, d_model]] of that tensor, whether the encoder's
    vectors have width [d_model] or width 1. *)
Theorem forward_result_shape x e tokens te hidden out e' :
  Embedding_wf e ->
  tokenizer e x (d_model e) = Ok tokens ->
  bert_model e tokens = Ok te ->
  shape3 te = (size0 tokens, size1 tokens, hidden) ->
  forward x e = (Ok out, e') ->
  shape3 out = (size0 tokens, size1 tokens, d_model e).
Proof.
  intros Hwf Et Ee Hte Hrun.
  apply forward_returns_iff in Hrun as [_ [l (Et' & Ep & Ee' & El & Ea & Es & Eb & En)]].
  rewrite Et in Et'. injection Et' as Et'. rewrite <- Et' in *.
  rewrite Ee in Ee'. injection Ee' as Ee'. rewrite <- Ee' in *.
  destruct (pos_lookup_value _ _ Ep El) as [Hpe _].
  destruct (seg_lookup_value (seg_embed e) tokens) as (se & Es' & Hse & _).
  { rewrite (wf_seg_num Hwf). lia. }
  rewrite Es in Es'. injection Es' as <-.
  apply tensor_add_dims in Ea as (A0 & A1 & _).
  apply tensor_add_dims in Eb as (B0 & B1 & _).
  apply LayerNorm_apply_value in En as (Hout & Hd & _).
  unfold shape3 in *.
  injection Hte as T0 T1 _. injection Hpe as P0 P1 _. injection Hse as S0 S1 _.
  rewrite T0, P0 in A0. rewrite T1, P1 in A1.
  apply bdim_refl_inv in A0, A1.
  rewrite A0, S0 in B0. rewrite A1, S1 in B1.
  apply bdim_refl_inv in B0, B1.
  rewrite Hout, B0, B1, Hd, (wf_norm Hwf). reflexivity.
Qed.

End OutcomeProperties.

(** ** An encoder of width 1 *)

Section Broadcast.

Context {F : Type} `{Scalar F}.

Implicit Types (e : Embedding F) (x : list string) (tokens pos : tensor2 Z).

Lemma vadd_repeat (c : F) (g : nat -> F) (a n : nat) :
  vadd (repeat c n) (map g (seq a n)) = map (fun k => fadd c (g k)) (seq a n).
Proof.
  unfold vadd. revert a. induction n as [| n IH]; intros a; simpl.
  - reflexivity.
  - f_equal. apply IH.
Qed.

Lemma tensor_add_broadcast_width (a b : tensor3 F) :
  dim0 a = dim0 b -> dim1 a = dim1 b -> dim2 a = 1 ->
  exists s, tensor_add a b = Ok s /\
    shape3 s = shape3 b /\
    forall i j, i < dim0 b -> j < dim1 b ->
      vec3 s i j = vadd (repeat (item3 a i j 0) (dim2 b)) (vec3 b i j).
Proof.
  destruct a as [a0 a1 a2 fa], b as [b0 b1 b2 fb]. simpl.
  intros -> -> ->. unfold tensor_add. simpl. rewrite !bdim_same.
  assert (Eb : bdim 1 b2 = Some b2).
  { unfold bdim. destruct (Nat.eqb_spec 1 b2); [congruence | reflexivity]. }
  rewrite Eb. eexists. split; [reflexivity |]. split; [reflexivity |].
  intros i j Hi Hj. unfold vec3. simpl. rewrite vadd_repeat.
  apply map_seq_ext. intros k Hk.
  rewrite !(bidx_lt (d:=b0)), !(bidx_lt (d:=b1)), (bidx_lt (d:=b2)) by lia.
  reflexivity.
Qed.

(** X15. An encoder that returns vectors of width 1 is accepted without an
    error: its single value is added to every component of the position and
    segment vectors, and the result still has width [d_model]. *)
Theorem forward_width_one_broadcast e x tokens te :
  Embedding_wf e ->
  tokenizer e x (d_model e) = Ok tokens ->
  (size0 tokens = 0 \/ size1 tokens <= maxlen_of e) ->
  bert_model e tokens = Ok te ->
  shape3 te = (size0 tokens, size1 tokens, 1) ->
  exists out,
    forward x e = (Ok out, e) /\
    shape3 out = (size0 tokens, size1 tokens, d_model e) /\
    forall b i, b < size0 tokens -> i < size1 tokens ->
      vec3 out b i =
      layer_norm_vec (norm e)
        (vadd (vadd (repeat (item3 te b i 0) (d_model e)) (table_row (pos_embed e) i))
              (table_row (seg_embed e) 0)).
Proof.
  intros Hwf Et Hfit Ee Hte.
  destruct (forward_pos_spec tokens) as (pos & Ep & _).
  destruct (Embedding_lookup_cases (pos_embed e) pos) as [[_ El] | [Hbad _]].
  2:{ apply (pos_indices_ok_iff (pos_embed e) tokens Ep) in Hfit. congruence. }
  set (pe := Tensor3 _ _ _ _) in El.
  destruct (pos_lookup_value (pos_embed e) tokens Ep El) as [Hpe Hpev].
  rewrite (wf_pos_dim Hwf) in Hpe.
  assert (T0 : dim0 te = size0 tokens) by now injection Hte.
  assert (T1 : dim1 te = size1 tokens) by now injection Hte.
  assert (T2 : dim2 te = 1) by now injection Hte.
  assert (P0 : dim0 pe = size0 tokens) by now injection Hpe.
  assert (P1 : dim1 pe = size1 tokens) by now injection Hpe.
  assert (P2 : dim2 pe = d_model e) by now injection Hpe.
  destruct (@tensor_add_broadcast_width te pe) as (s1 & Ea & Hs1 & Hs1v);
    [congruence | congruence | exact T2 |].
  destruct (seg_lookup_value (seg_embed e) tokens) as (se & Es & Hse & Hsev).
  { rewrite (wf_seg_num Hwf). lia. }
  rewrite (wf_seg_dim Hwf) in Hse.
  destruct (@tensor_add_same_shape F _ s1 se) as (emb & Eb & Hemb & Hembv).
  { now rewrite Hs1, Hpe, Hse. }
  assert (Hd : dim2 emb = normalized_shape (norm e)).
  { rewrite (wf_norm Hwf). rewrite Hs1, Hpe in Hemb. now injection Hemb. }
  destruct (LayerNorm_apply (norm e) emb) as [out |] eqn:En.
  2:{ unfold LayerNorm_apply in En. apply Nat.eqb_eq in Hd. rewrite Hd in En.
      discriminate. }
  exists out. split; [| split].
  - apply forward_returns_iff. split; [reflexivity |].
    exists (Build_locals tokens pos te pe s1 se emb). unfold returns_with. simpl.
    repeat (split; [assumption |]). assumption.
  - apply LayerNorm_apply_value in En as (Hout & _ & _).
    now rewrite Hout, Hemb, Hs1.
  - intros b i Hb Hi.
    apply LayerNorm_apply_value in En as (_ & _ & Hn). rewrite Hn. f_equal.
    assert (A0 : dim0 s1 = size0 tokens) by (rewrite Hpe in Hs1; now injection Hs1).
    assert (A1 : dim1 s1 = size1 tokens) by (rewrite Hpe in Hs1; now injection Hs1).
    rewrite Hembv by lia. rewrite Hs1v by lia. rewrite P2.
    f_equal; [f_equal |].
    + unfold vec3, table_row. rewrite P2, (wf_pos_dim Hwf).
      apply map_seq_ext. intros k _. now apply Hpev.
    + assert (Hse2 : dim2 se = d_model e) by now injection Hse.
      unfold vec3, table_row. rewrite Hse2, (wf_seg_dim Hwf).
      apply map_seq_ext. intros k _. apply Hsev.
Qed.

End Broadcast.

(** ** Table rows that are never read *)

Section UnusedRows.

Context {F : Type} `{Scalar F}.

Implicit Types (e : Embedding F) (x : list string) (tokens pos : tensor2 Z).

Lemma forward_run_chain x e :
  run (forward x) e =
  rbind (tokenizer e x (d_model e)) (fun tokens =>
  rbind (forward_pos tokens) (fun pos =>
  rbind (bert_model e tokens) (fun te =>
  rbind (Embedding_lookup (pos_embed e) pos) (fun pe =>
  rbind (tensor_add te pe) (fun s1 =>
  rbind (Embedding_lookup (seg_embed e) (forward_segments tokens)) (fun se =>
  rbind (tensor_add s1 se) (fun emb =>
  LayerNorm_apply (norm e) emb))))))).
Proof.
  unfold run, forward, forward_tokens, forward_token_embeddings, forward_sum,
    forward_pos_embed, forward_seg_embed, forward_norm, bind, ret, getattr, call, rbind.
  destruct (tokenizer e x (d_model e)) as [tokens |]; [| reflexivity].
  destruct (forward_pos tokens) as [pos |]; [| reflexivity].
  destruct (bert_model e tokens) as [te |]; [| reflexivity].
  destruct (Embedding_lookup (pos_embed e) pos); [| reflexivity].
  destruct (tensor_add te _); [| reflexivity].
  destruct (Embedding_lookup (seg_embed e) _); [| reflexivity].
  destruct (tensor_add _ _); [| reflexivity].
  destruct (LayerNorm_apply _ _); reflexivity.
Qed.

Lemma tensor3_agree_items (a b : tensor3 F) :
  tensor3_agree a b <->
  shape3 a = shape3 b /\
  forall i j k, i < dim0 a -> j < dim1 a -> k < dim2 a -> item3 a i j k = item3 b i j k.
Proof.
  unfold tensor3_agree. split; intros [Hs Hv]; (split; [exact Hs |]).
  - intros i j k Hi Hj Hk. specialize (Hv i j Hi Hj).
    assert (E2 : dim2 a = dim2 b) by now injection Hs.
    apply (f_equal (fun l => nth k l (item3 a 0 0 0))) in Hv.
    unfold vec3 in Hv. rewrite !nth_map_seq in Hv by lia. exact Hv.
  - intros i j Hi Hj. unfold vec3.
    assert (E2 : dim2 a = dim2 b) by now injection Hs.
    rewrite <- E2. apply map_seq_ext. intros k Hk. apply Hv; lia.
Qed.

Lemma tensor3_agree_refl (a : tensor3 F) : tensor3_agree a a.
Proof. split; reflexivity. Qed.

Lemma bidx_in_range (a b d i : nat) :
  bdim a b = Some d -> i < d -> bidx a i < a /\ bidx b i < b.
Proof.
  unfold bdim, bidx.
  destruct (Nat.eqb_spec a b); [intros E; injection E as <-; subst b |].
  - destruct (Nat.eqb_spec a 1); lia.
  - destruct (Nat.eqb_spec a 1).
    + intros E. injection E as <-. destruct (Nat.eqb_spec b 1); lia.
    + destruct (Nat.eqb_spec b 1); [| discriminate].
      intros E. injection E as <-. lia.
Qed.

Lemma tensor_add_agree (a1 a2 b1 b2 : tensor3 F) :
  tensor3_agree a1 a2 -> tensor3_agree b1 b2 ->
  outcome_agree (tensor_add a1 b1) (tensor_add a2 b2).
Proof.
  intros Ha Hb. apply tensor3_agree_items in Ha as [Sa Ia], Hb as [Sb Ib].
  destruct a1 as [a0 a1 a2' fa], a2 as [a0' a1' a2'' fa'],
           b1 as [b0 b1 b2' fb], b2 as [b0' b1' b2'' fb'].
  unfold shape3 in Sa, Sb. simpl in *.
  injection Sa as <- <- <-. injection Sb as <- <- <-.
  unfold tensor_add. simpl.
  destruct (bdim a0 b0) as [d0 |] eqn:E0; [| exact eq_refl].
  destruct (bdim a1 b1) as [d1 |] eqn:E1; [| exact eq_refl].
  destruct (bdim a2' b2') as [d2 |] eqn:E2; [| exact eq_refl].
  simpl. apply tensor3_agree_items. split; [reflexivity |]. simpl.
  intros i j k Hi Hj Hk.
  destruct (@bidx_in_range _ _ _ i E0 Hi), (@bidx_in_range _ _ _ j E1 Hj),
           (@bidx_in_range _ _ _ k E2 Hk).
  rewrite Ia, Ib by assumption. reflexivity.
Qed.

Lemma LayerNorm_apply_agree (n : nn_LayerNorm F) (t1 t2 : tensor3 F) :
  tensor3_agree t1 t2 ->
  outcome_agree (LayerNorm_apply n t1) (LayerNorm_apply n t2).
Proof.
  intros [Hs Hv]. unfold LayerNorm_apply.
  assert (E0 : dim0 t1 = dim0 t2) by now injection Hs.
  assert (E1 : dim1 t1 = dim1 t2) by now injection Hs.
  assert (E2 : dim2 t1 = dim2 t2) by now injection Hs.
  rewrite <- E2. destruct (dim2 t1 =? normalized_shape n); [| exact eq_refl].
  simpl. split.
  - unfold shape3. simpl. now rewrite E0, E1.
  - simpl. intros i j Hi Hj. unfold vec3 at 1 3. simpl.
    apply map_seq_ext. intros k _. now rewrite Hv.
Qed.

Lemma Embedding_lookup_agree (m1 m2 : nn_Embedding F) (idx : tensor2 Z) :
  num_embeddings m1 = num_embeddings m2 ->
  embedding_dim m1 = embedding_dim m2 ->
  (forall i j k, i < size0 idx -> j < size1 idx ->
     weight m1 (Z.to_nat (item2 idx i j)) k = weight m2 (Z.to_nat (item2 idx i j)) k) ->
  outcome_agree (Embedding_lookup m1 idx) (Embedding_lookup m2 idx).
Proof.
  intros Hn Hd Hw. unfold Embedding_lookup.
  assert (E : indices_ok m1 idx = indices_ok m2 idx).
  { unfold indices_ok, index_ok. now rewrite Hn. }
  rewrite <- E. destruct (indices_ok m1 idx); [| exact eq_refl].
  simpl. apply tensor3_agree_items. split.
  - unfold shape3. simpl. now rewrite Hd.
  - simpl. intros i j k Hi Hj _. now apply Hw.
Qed.

Lemma rbind_agree (r1 r2 : result (tensor3 F)) (k1 k2 : tensor3 F -> result (tensor3 F)) :
  outcome_agree r1 r2 ->
  (forall a b, tensor3_agree a b -> outcome_agree (k1 a) (k2 b)) ->
  outcome_agree (rbind r1 k1) (rbind r2 k2).
Proof.
  intros Hr Hk. destruct r1 as [a |], r2 as [b |]; simpl in *;
    [now apply Hk | contradiction | contradiction | exact Hr].
Qed.

(** X16. The outcome of a call depends on the position table only through
    the rows below the number of columns of the token tensor the tokenizer
    returned, and on the segment table only through its first row: giving the
    other rows any other weights leaves the exception, or the shape and every
    entry of the returned tensor, as they were. *)
Theorem forward_unused_table_rows e x (w v : nat -> nat -> F) :
  (forall tokens, tokenizer e x (d_model e) = Ok tokens ->
     forall r k, r < size1 tokens -> w r k = weight (pos_embed e) r k) ->
  (forall k, v 0 k = weight (seg_embed e) 0 k) ->
  outcome_agree (run (forward x) (with_tables e w v)) (run (forward x) e).
Proof.
  intros Hw Hv. rewrite !forward_run_chain. unfold with_tables. simpl.
  destruct (tokenizer e x (d_model e)) as [tokens |] eqn:Et; [| exact eq_refl].
  specialize (Hw tokens eq_refl).
  cbn [rbind].
  destruct (forward_pos_spec tokens) as (pos & Ep & Hshape & Hitem).
  rewrite Ep. cbn [rbind].
  destruct (bert_model e tokens) as [te |]; [| exact eq_refl].
  cbn [rbind].
  assert (P0 : size0 pos = size0 tokens) by now injection Hshape.
  assert (P1 : size1 pos = size1 tokens) by now injection Hshape.
  apply rbind_agree.
  { apply Embedding_lookup_agree; try reflexivity. simpl.
    intros i j k Hi Hj. rewrite Hitem by lia. rewrite Nat2Z.id. apply Hw. lia. }
  intros pe1 pe2 Hpe. apply rbind_agree.
  { apply tensor_add_agree; [apply tensor3_agree_refl | exact Hpe]. }
  intros s1 s2 Hs. apply rbind_agree.
  { apply Embedding_lookup_agree; try reflexivity. simpl. intros i j k _ _. apply Hv. }
  intros se1 se2 Hse. apply rbind_agree.
  { now apply tensor_add_agree. }
  intros emb1 emb2 Hemb. now apply LayerNorm_apply_agree.
Qed.

End UnusedRows.

(** ** Runs of the corpus cells and further runs of the module *)

Lemma Nltk_lower_char_not_upper (c : ascii) : is_upper (Nltk.lower_char c) = false.
Proof. destruct c as [[] [] [] [] [] [] [] []]; reflexivity. Qed.

Lemma Nltk_lower_contract : lower_contract Nltk.lower.
Proof.
  intros w. unfold has_upper. induction w as [| c w IH]; [reflexivity |].
  simpl. now rewrite Nltk_lower_char_not_upper, IH.
Qed.

Lemma Nltk_set_iteration_contract : set_iteration_contract Nltk.set_iteration.
Proof.
  intros l. split; [apply NoDup_nodup |]. intros y. apply nodup_In.
Qed.

Lemma read_corpus_documents_witness :
  exists files,
    Nltk.fileids "gold"%string = Ok files /\
    Forall2 (fun f doc =>
               exists ws, Nltk.words f = Ok ws /\
                 List.length doc = List.length ws + 2 /\
                 hd_error doc = Some START_TOKEN /\
                 last doc EmptyString = END_TOKEN)
            files gold_corpus.
Proof.
  apply read_corpus_documents with (lower := Nltk.lower). reflexivity.
Defined.

Lemma read_corpus_markers_once_witness :
  Forall (fun doc =>
            count_occ string_dec doc START_TOKEN = 1 /\
            count_occ string_dec doc END_TOKEN = 1)
         gold_corpus.
Proof.
  apply read_corpus_markers_once
    with (reuters_fileids := Nltk.fileids) (reuters_words := Nltk.words)
         (lower := Nltk.lower) (category := "gold"%string).
  - exact Nltk_lower_contract.
  - reflexivity.
Defined.

Lemma distinct_words_each_word_once_witness :
  NoDup (fst (distinct_words Nltk.set_iteration gold_corpus)) /\
  (forall y, In y (fst (distinct_words Nltk.set_iteration gold_corpus)) <->
             exists doc, In doc gold_corpus /\ In y doc) /\
  snd (distinct_words Nltk.set_iteration gold_corpus) =
    Z.of_nat (List.length (fst (distinct_words Nltk.set_iteration gold_corpus))).
Proof.
  apply distinct_words_each_word_once. exact Nltk_set_iteration_contract.
Defined.

Lemma distinct_words_count_bounds_witness :
  (0 <= snd (distinct_words Nltk.set_iteration gold_corpus)
     <= Z.of_nat (List.length (List.concat gold_corpus)))%Z /\
  (snd (distinct_words Nltk.set_iteration gold_corpus) = 0%Z <->
   Forall (fun doc => doc = []) gold_corpus).
Proof.
  apply distinct_words_count_bounds. exact Nltk_set_iteration_contract.
Defined.

Lemma distinct_words_same_vocabulary_witness :
  Permutation (fst (distinct_words Nltk.set_iteration gold_corpus))
              (fst (distinct_words Nltk.set_iteration (rev gold_corpus ++ gold_corpus))) /\
  snd (distinct_words Nltk.set_iteration gold_corpus) =
  snd (distinct_words Nltk.set_iteration (rev gold_corpus ++ gold_corpus)).
Proof.
  apply distinct_words_same_vocabulary.
  - exact Nltk_set_iteration_contract.
  - intros y. simpl. tauto.
Defined.

Lemma distinct_words_of_read_corpus_witness :
  exists files wss,
    Nltk.fileids "gold"%string = Ok files /\
    Forall2 (fun f ws => Nltk.words f = Ok ws) files wss /\
    In START_TOKEN (fst (distinct_words Nltk.set_iteration gold_corpus)) /\
    In END_TOKEN (fst (distinct_words Nltk.set_iteration gold_corpus)) /\
    snd (distinct_words Nltk.set_iteration gold_corpus) =
      (Z.of_nat (List.length (nodup string_dec (map Nltk.lower (List.concat wss)))) + 2)%Z.
Proof.
  apply distinct_words_of_read_corpus.
  - exact Nltk_lower_contract.
  - exact Nltk_set_iteration_contract.
  - reflexivity.
  - discriminate.
Defined.

Lemma load_corpus_lengths_witness :
  reuters_corpus gold_globals <> [] /\
  Forall (fun sentence => 2 <= List.length sentence <= max_sent_length gold_globals)
         (reuters_corpus gold_globals) /\
  Exists (fun sentence => List.length sentence = max_sent_length gold_globals)
         (reuters_corpus gold_globals).
Proof.
  apply load_corpus_lengths
    with (reuters_fileids := Nltk.fileids) (reuters_words := Nltk.words)
         (lower := Nltk.lower) (set_iteration := Nltk.set_iteration).
  reflexivity.
Defined.

Lemma load_corpus_completes_witness :
  exists g,
    load_corpus Nltk.fileids Nltk.words Nltk.lower Nltk.set_iteration = Ok g /\
    List.length (reuters_corpus g) = 2 /\
    reuters_corpus g =
      map (document Nltk.lower) [["Gold"; "prices"; "ROSE"; "."]; ["gold"; "fell"]]%string.
Proof.
  apply load_corpus_completes with (files := ["test/1"; "training/2"]%string).
  - reflexivity.
  - discriminate.
  - repeat constructor.
Defined.


Lemma encode_sentences_first_error_witness :
  encode_sentences Stub.tokenizer broken_corpus 4 no_globals =
    (Err ValueError,
     Build_encoding_globals
       [Tensor2 2 4 (fun i j => nth j (Stub.encode_text 4
                                         (nth i ["a"; "dog"]%string EmptyString)) Stub.PAD)]
       (Some (Tensor2 2 4 (fun i j => nth j (Stub.encode_text 4
                                         (nth i ["a"; "dog"]%string EmptyString)) Stub.PAD)))).
Proof.
  exact (@encode_sentences_first_error Stub.tokenizer 4 [["a"; "dog"]%string] []
           [["the"; "cat"]%string]
           [Tensor2 2 4 (fun i j => nth j (Stub.encode_text 4
                                         (nth i ["a"; "dog"]%string EmptyString)) Stub.PAD)]
           ValueError no_globals eq_refl eq_refl).
Defined.

Lemma forward_returns_exactly_when_witness :
  is_ok (run (forward cat_batch) wide_model) = true <->
  (size0 cat_tokens = 0 \/ size1 cat_tokens <= maxlen_of wide_model) /\
  (8 = d_model wide_model \/ 8 = 1).
Proof.
  apply forward_returns_exactly_when with (te := wide_token_embeddings).
  - apply Stub_make_wf.
  - reflexivity.
  - reflexivity.
  - reflexivity.
Defined.

Lemma forward_error_kind_witness :
  (run (forward cat_batch) wide_model = Err IndexError <->
   0 < size0 cat_tokens /\ maxlen_of wide_model < size1 cat_tokens) /\
  (run (forward cat_batch) wide_model = Err RuntimeError <->
   (size0 cat_tokens = 0 \/ size1 cat_tokens <= maxlen_of wide_model) /\
   8 <> d_model wide_model /\ 8 <> 1).
Proof.
  apply forward_error_kind with (te := wide_token_embeddings).
  - apply Stub_make_wf.
  - reflexivity.
  - reflexivity.
  - reflexivity.
Defined.

Lemma forward_collaborator_error_witness :
  forward [] cat_model = (Err ValueError, cat_model).
Proof.
  apply forward_collaborator_error. left. reflexivity.
Defined.

Lemma forward_fails_only_with_collaborators_witness :
  run (forward cat_batch) cat_model = Err ValueError <->
  (tokenizer cat_model cat_batch (d_model cat_model) = Err ValueError \/
   exists tokens,
     tokenizer cat_model cat_batch (d_model cat_model) = Ok tokens /\
     bert_model cat_model tokens = Err ValueError).
Proof.
  apply forward_fails_only_with_collaborators.
  - apply Stub_make_wf.
  - intros tokens Et. change (Ok cat_tokens = Ok tokens) in Et.
    injection Et as <-. right. vm_compute. lia.
  - intros tokens te Et Ee. change (Ok cat_tokens = Ok tokens) in Et.
    injection Et as <-. change (Ok cat_token_embeddings = Ok te) in Ee.
    injection Ee as <-. reflexivity.
Defined.

Lemma forward_width_one_broadcast_witness :
  exists out,
    forward cat_batch narrow_model = (Ok out, narrow_model) /\
    shape3 out = (1, 4, 4) /\
    forall b i, b < 1 -> i < 4 ->
      vec3 out b i =
      layer_norm_vec (norm narrow_model)
        (vadd (vadd (repeat (item3 narrow_token_embeddings b i 0) 4)
                    (table_row (pos_embed narrow_model) i))
              (table_row (seg_embed narrow_model) 0)).
Proof.
  apply forward_width_one_broadcast with (tokens := cat_tokens).
  - apply Stub_make_wf.
  - reflexivity.
  - right. vm_compute. lia.
  - reflexivity.
  - reflexivity.
Defined.

Lemma forward_unused_table_rows_witness :
  outcome_agree (run (forward cat_batch) (with_tables cat_model other_pos_w other_seg_w))
                (run (forward cat_batch) cat_model).
Proof.
  apply forward_unused_table_rows.
  - intros tokens Et. change (Ok cat_tokens = Ok tokens) in Et.
    injection Et as <-. intros r k Hr. unfold other_pos_w.
    change (size1 cat_tokens) with 4 in Hr.
    destruct (Nat.ltb_spec r 4); [reflexivity | lia].
  - intros k. reflexivity.
Defined.

Lemma forward_result_shape_witness :
  exists out,
    forward cat_batch narrow_model = (Ok out, narrow_model) /\
    shape3 out = (1, 4, 4).
Proof.
  eexists. split; [reflexivity |].
  apply forward_result_shape
    with (x := cat_batch) (e := narrow_model) (tokens := cat_tokens)
         (te := narrow_token_embeddings) (hidden := 1) (e' := narrow_model).
  - apply Stub_make_wf.
  - reflexivity.
  - reflexivity.
  - reflexivity.
  - reflexivity.
Defined.

(** ** The same input on the same weights *)

Section SameWeights.

Context {F : Type} `{Scalar F}.

Implicit Types (e : Embedding F) (x : list string) (tokens pos : tensor2 Z).

Lemma Embedding_lookup_same_weights (m1 m2 : nn_Embedding F) (idx : tensor2 Z) :
  table_agree m1 m2 ->
  outcome_agree (Embedding_lookup m1 idx) (Embedding_lookup m2 idx).
Proof.
  intros (Hn & Hd & Hw). unfold Embedding_lookup.
  assert (E : indices_ok m2 idx = indices_ok m1 idx).
  { unfold indices_ok, index_ok. now rewrite Hn. }
  rewrite E. destruct (indices_ok m1 idx) eqn:Hok; [| exact eq_refl].
  simpl. apply tensor3_agree_items. split.
  - unfold shape3. simpl. now rewrite Hd.
  - simpl. intros i j k Hi Hj Hk.
    pose proof (proj1 (indices_ok_true m1 idx) Hok i j Hi Hj) as Hb.
    apply Hw; [lia | exact Hk].
Qed.

Lemma LayerNorm_apply_same_weights (n1 n2 : nn_LayerNorm F) (t1 t2 : tensor3 F) :
  norm_agree n1 n2 ->
  tensor3_agree t1 t2 ->
  outcome_agree (LayerNorm_apply n1 t1) (LayerNorm_apply n2 t2).
Proof.
  intros (Hs & He & Hp) [Ht Hv]. unfold LayerNorm_apply.
  assert (E0 : dim0 t1 = dim0 t2) by now injection Ht.
  assert (E1 : dim1 t1 = dim1 t2) by now injection Ht.
  assert (E2 : dim2 t1 = dim2 t2) by now injection Ht.
  rewrite <- E2, <- Hs.
  destruct (Nat.eqb_spec (dim2 t1) (normalized_shape n1)) as [Ed |]; [| exact eq_refl].
  simpl. split.
  - unfold shape3. simpl. now rewrite E0, E1.
  - simpl. intros i j Hi Hj. unfold vec3 at 1 3. simpl.
    apply map_seq_ext. intros k Hk. unfold normalize.
    rewrite (Hv i j Hi Hj), He.
    destruct (Hp k) as [-> ->]; [lia | reflexivity].
Qed.


End SameWeights.

